(** * K1 MCU flasher: a model of [mcu_util.py] and its protocol properties

    The script talks to the bootloader of a printer MCU over a serial port.
    This development embeds the protocol code of [mcu_util.py] in Rocq:

    - bytes are integers ([Z]), byte strings are lists of them;
    - the serial port, the firmware file and the device's answers live in a
      [world] record that every operation threads through;
    - Python exceptions are the [Raise] results of a state-and-error monad,
      with [try_except] and [try_finally] for the two Python constructs.

    Output on the console ([print], [debug], [progress_bar]) does not change
    the state of the protocol and is left out; [progress_bar] is only ever
    called with a positive total, so its division cannot fail. *)

From Stdlib Require Import String Ascii ZArith Arith Bool Lia List Permutation.
Import ListNotations.

Local Open Scope Z_scope.

(** ** Bytes and Python sequence operations *)

Definition bytes := list Z.

(** [r[:-1]] *)
Definition py_init (r : bytes) : bytes := removelast r.

(** [r[-1]] on a sequence that is not empty *)
Definition py_last (r : bytes) : Z := last r 0.

(** [r[0]] on a sequence that is not empty *)
Definition py_head (r : bytes) : Z := hd 0 r.

(** [b[:-1] = d]: everything but the last element is replaced by [d]. *)
Definition set_init (b d : bytes) : bytes := d ++ skipn (length b - 1) b.

(** [b[-1] = v] on a sequence that is not empty *)
Definition set_last (b : bytes) (v : Z) : bytes := py_init b ++ [v].

(** [b[:n] = d]: the first [n] elements are replaced by [d]. *)
Definition set_prefix (b : bytes) (n : nat) (d : bytes) : bytes := d ++ skipn n b.

(** [b[n] = v] for [n] in range *)
Fixpoint set_nth (b : bytes) (n : nat) (v : Z) : bytes :=
  match b, n with
  | [], _ => []
  | _ :: t, O => v :: t
  | h :: t, S n' => h :: set_nth t n' v
  end.

(** [bytearray(n)]: [n] zero bytes *)
Definition bytearray (n : nat) : bytes := repeat 0 n.

(** [bytes(b).decode(encoding='latin')]: one character per byte. *)
Definition decode_latin (b : bytes) : string :=
  string_of_list_ascii (map (fun x => ascii_of_N (Z.to_N x)) b).

(** [size.to_bytes(4, 'little')]; Python raises [OverflowError] when the
    number does not fit, which is [None] here. *)
Definition to_bytes4 (size : nat) : option bytes :=
  let z := Z.of_nat size in
  if z <? 2 ^ 32
  then Some [z mod 256; (z / 256) mod 256; (z / 65536) mod 256; (z / 16777216) mod 256]
  else None.

(** ** The checksum *)

(** [crc], lines 22-26. *)
Definition crc (data : bytes) : Z :=
  Z.lxor (fold_left (fun x i => Z.land (x + i) 0xff) data 0) 0xff.

(** The test every stage applies to a response: [r[-1] == crc(r[:-1])]. *)
Definition crc_ok (r : bytes) : bool := py_last r =? crc (py_init r).

(** The arithmetic sum of a byte sequence, to state what [crc] computes. *)
Definition sum_bytes (b : bytes) : Z := fold_right Z.add 0 b.

(** ** Exceptions and the monad of the script *)

Inductive exn : Type :=
| SerialException
| SerialTimeoutException
| AttributeError
| TypeError
| ZeroDivisionError
| OverflowError
| UnboundLocalError
| IndexError
| OSError.

(** [except serial.SerialTimeoutException] followed by
    [except serial.SerialException]: the first is a subclass of the second,
    and both handlers of a stage do the same. *)
Definition is_serial (e : exn) : bool :=
  match e with
  | SerialException | SerialTimeoutException => true
  | _ => false
  end.

(** [except Exception] *)
Definition any_exception (e : exn) : bool := true.

Inductive result (A : Type) : Type :=
| Ret (a : A)
| Raise (e : exn).
Arguments Ret {A} a.
Arguments Raise {A} e.

(** What the port does when it is written to or read from is not decided by
    the script: the world carries a queue of outcomes for each kind of call. *)
Inductive write_outcome : Type :=
| WAll                     (* every byte is written *)
| WCount (n : nat)         (* only [n] bytes are written *)
| WRaise (e : exn).

Inductive read_outcome : Type :=
| RBytes (b : bytes)       (* these bytes arrive before the timeout *)
| RRaise (e : exn).

Inductive event : Type :=
| EvWrite (data : bytes) (written : nat)
| EvWriteFail (data : bytes) (e : exn)
| EvRead (size : nat) (data : bytes)
| EvReadFail (size : nat) (e : exn).

Record world : Type := mkWorld {
  handles : list bool;              (* [is_open] of every Serial object made so far *)
  open_q : list (option exn);       (* outcomes of the next attempts to open the port *)
  write_q : list write_outcome;     (* outcomes of the next writes *)
  read_q : list read_outcome;       (* outcomes of the next reads *)
  trace : list event;               (* what went over the port, oldest first *)
  fw_exists : bool;                 (* [Path(args.file).is_file()] *)
  fw_data : bytes;                  (* the firmware image *)
  fw_pos : nat                      (* position of the file object *)
}.

Definition set_handles (w : world) (h : list bool) : world :=
  mkWorld h (open_q w) (write_q w) (read_q w) (trace w) (fw_exists w) (fw_data w) (fw_pos w).
Definition set_open_q (w : world) (q : list (option exn)) : world :=
  mkWorld (handles w) q (write_q w) (read_q w) (trace w) (fw_exists w) (fw_data w) (fw_pos w).
Definition set_write_q (w : world) (q : list write_outcome) : world :=
  mkWorld (handles w) (open_q w) q (read_q w) (trace w) (fw_exists w) (fw_data w) (fw_pos w).
Definition set_read_q (w : world) (q : list read_outcome) : world :=
  mkWorld (handles w) (open_q w) (write_q w) q (trace w) (fw_exists w) (fw_data w) (fw_pos w).
Definition log (w : world) (e : event) : world :=
  mkWorld (handles w) (open_q w) (write_q w) (read_q w) (trace w ++ [e]) (fw_exists w) (fw_data w) (fw_pos w).
Definition set_fw_pos (w : world) (p : nat) : world :=
  mkWorld (handles w) (open_q w) (write_q w) (read_q w) (trace w) (fw_exists w) (fw_data w) p.

Definition M (A : Type) : Type := world -> result A * world.

Definition ret {A} (a : A) : M A := fun w => (Ret a, w).
Definition raise {A} (e : exn) : M A := fun w => (Raise e, w).
Definition bind {A B} (m : M A) (k : A -> M B) : M B :=
  fun w => match m w with
           | (Ret a, w') => k a w'
           | (Raise e, w') => (Raise e, w')
           end.

Declare Scope py_scope.
Delimit Scope py_scope with py.
Notation "x <- m ;; k" := (bind m (fun x => k))
  (at level 100, m at next level, right associativity) : py_scope.
Notation "m ;; k" := (bind m (fun _ => k))
  (at level 100, right associativity) : py_scope.
Local Open Scope py_scope.

(** [try: m  except <handled>: h] *)
Definition try_except {A} (m : M A) (handled : exn -> bool) (h : exn -> M A) : M A :=
  fun w => match m w with
           | (Ret a, w') => (Ret a, w')
           | (Raise e, w') => if handled e then h e w' else (Raise e, w')
           end.

(** [try: m  finally: c]; the clean-up runs on every way out of [m]. *)
Definition try_finally {A} (m : M A) (c : M unit) : M A :=
  fun w => match m w with
           | (r, w') => match c w' with
                        | (Ret _, w'') => (r, w'')
                        | (Raise e, w'') => (Raise e, w'')
                        end
           end.

(** ** The serial port *)

(** A variable holding a Serial object or [None]. *)
Definition serial := option nat.

Fixpoint set_flag (l : list bool) (h : nat) (b : bool) : list bool :=
  match l, h with
  | [], _ => []
  | _ :: t, O => b :: t
  | x :: t, S h' => x :: set_flag t h' b
  end.

(** The outcome of the next call of each kind; when a queue has run out,
    the port opens, a write goes through and a read times out with nothing. *)
Definition next_open (w : world) : option exn := hd None (open_q w).
Definition next_write (w : world) : write_outcome := hd WAll (write_q w).
Definition next_read (w : world) : read_outcome := hd (RBytes []) (read_q w).

Definition pop_open (w : world) : world := set_open_q w (tl (open_q w)).
Definition pop_write (w : world) : world := set_write_q w (tl (write_q w)).
Definition pop_read (w : world) : world := set_read_q w (tl (read_q w)).

(** [serial.Serial(port, baudrate=..., timeout=2.0)]: makes the object and
    opens the port. *)
Definition Serial_new : M nat :=
  fun w => match next_open w with
           | None => (Ret (length (handles w)), set_handles (pop_open w) (handles w ++ [true]))
           | Some e => (Raise e, pop_open w)
           end.

(** [ser.is_open] *)
Definition ser_is_open (ser : serial) : M bool :=
  fun w => match ser with
           | None => (Raise AttributeError, w)
           | Some h => (Ret (nth h (handles w) false), w)
           end.

(** [ser.open()]; pySerial refuses to open a port that is open. *)
Definition ser_open (ser : serial) : M unit :=
  fun w => match ser with
           | None => (Raise AttributeError, w)
           | Some h =>
               if nth h (handles w) false then (Raise SerialException, w)
               else match next_open w with
                    | None => (Ret tt, set_handles (pop_open w) (set_flag (handles w) h true))
                    | Some e => (Raise e, pop_open w)
                    end
           end.

(** [ser.close()] *)
Definition ser_close (ser : serial) : M unit :=
  fun w => match ser with
           | None => (Raise AttributeError, w)
           | Some h => (Ret tt, set_handles w (set_flag (handles w) h false))
           end.

(** [ser.write(data)]: the number of bytes written.  pySerial raises on a
    port that is not open. *)
Definition ser_write (ser : serial) (data : bytes) : M nat :=
  fun w => match ser with
           | None => (Raise AttributeError, w)
           | Some h =>
               if negb (nth h (handles w) false) then (Raise SerialException, w)
               else match next_write w with
                    | WAll =>
                        (Ret (length data), log (pop_write w) (EvWrite data (length data)))
                    | WCount n =>
                        (Ret (Nat.min n (length data)),
                         log (pop_write w) (EvWrite data (Nat.min n (length data))))
                    | WRaise e => (Raise e, log (pop_write w) (EvWriteFail data e))
                    end
           end.

(** [ser.read(size)]: at most [size] bytes, fewer or none on a timeout. *)
Definition ser_read (ser : serial) (size : nat) : M bytes :=
  fun w => match ser with
           | None => (Raise AttributeError, w)
           | Some h =>
               if negb (nth h (handles w) false) then (Raise SerialException, w)
               else match next_read w with
                    | RBytes b =>
                        (Ret (firstn size b), log (pop_read w) (EvRead size (firstn size b)))
                    | RRaise e => (Raise e, log (pop_read w) (EvReadFail size e))
                    end
           end.

(** ** The firmware file *)

(** [f.seek(0, SEEK_END); size = f.tell(); f.seek(0)] *)
Definition f_size : M nat :=
  fun w => (Ret (length (fw_data w)), set_fw_pos w 0).

(** [f.read(n)] *)
Definition f_read (n : nat) : M bytes :=
  fun w => let d := firstn n (skipn (fw_pos w) (fw_data w)) in
           (Ret d, set_fw_pos w (fw_pos w + length d)).

(** [open(file, 'rb')] *)
Definition f_open : M unit :=
  fun w => if fw_exists w then (Ret tt, set_fw_pos w 0) else (Raise OSError, w).

(** ** The stages of the protocol *)

(** The first lines of every stage:
    [if not ser.is_open: ser.open()]. *)
Definition ensure_open (ser : serial) : M unit :=
  o <- ser_is_open ser ;;
  if negb o then ser_open ser else ret tt.

(** [_handshake], lines 52-74.  Send [0x75], receive the acknowledgement
    [0x75]. *)
Definition _handshake (ser : serial) : M bool :=
  try_except
    (ensure_open ser ;;
     n <- ser_write ser [0x75] ;;
     if (n =? 0)%nat then ret false
     else
       r <- ser_read ser 1 ;;
       if (0 <? length r)%nat
       then if py_head r =? 0x75 then ret true else ret false
       else ret false)
    is_serial (fun _ => ret false).

(** [_get_version], lines 81-101.  Send [00 ff], receive 25 bytes of text
    and their checksum.  The result is the text, or [None]. *)
Definition _get_version (ser : serial) : M (option string) :=
  try_except
    (ensure_open ser ;;
     n <- ser_write ser [0x00; 0xff] ;;
     if (n =? 0)%nat then ret None
     else
       r <- ser_read ser 26 ;;
       if (0 <? length r)%nat
       then if (length r =? 26)%nat && (nth 25 r 0 =? crc (py_init r))
            then ret (Some (decode_latin (py_init r)))
            else ret None
       else ret None)
    is_serial (fun _ => ret None).

(** [_get_sector_size], lines 107-127.  Send [03 fc], receive the size and
    its checksum. *)
Definition _get_sector_size (ser : serial) : M (option Z) :=
  try_except
    (ensure_open ser ;;
     n <- ser_write ser [0x03; 0xfc] ;;
     if (n =? 0)%nat then ret None
     else
       r <- ser_read ser 2 ;;
       if (0 <? length r)%nat
       then if (length r =? 2)%nat && crc_ok r
            then ret (Some (py_head r))
            else ret None
       else ret None)
    is_serial (fun _ => ret None).

(** [_app_start], lines 133-156.  Send [02 fd], receive the acknowledgement
    [0x75].  The result is [True], [False] or [None]. *)
Definition _app_start (ser : serial) : M (option bool) :=
  try_except
    (ensure_open ser ;;
     n <- ser_write ser [0x02; 0xfd] ;;
     if (n =? 0)%nat then ret None
     else
       r <- ser_read ser 2 ;;
       if (0 <? length r)%nat
       then if (py_head r =? 0x75) && crc_ok r
            then ret (Some true)
            else ret (Some false)
       else ret None)
    is_serial (fun _ => ret None).

(** ** Flashing the firmware *)

(** [fw_status_check], lines 170-186: the classifier of a chunk's response.
    It has no [return] for a status byte it does not know, so Python returns
    [None] there. *)
Definition fw_status_check (r : bytes) : option Z :=
  if (length r =? 0)%nat then Some 2
  else if py_head r =? 0x75 then Some 4
  else if py_head r =? 0x1f then Some 3
  else if py_head r =? 0x21 then Some 0
  else if py_head r =? 0x20 then Some 1
  else None.

(** How the loop over the full chunks ends: by a [return] of the function,
    or by running out, with the buffer and the local variable [x]
    ([None] while nothing was assigned to it). *)
Inductive loop_exit : Type :=
| LReturn (v : Z)
| LDone (buffer_send : bytes) (x : option Z).

(** [for _ in range(n):] over the full chunks, lines 224-240. *)
Fixpoint chunk_loop (n : nat) (ser : serial) (buffer_size : nat)
    (buffer_send : bytes) (x : option Z) : M loop_exit :=
  match n with
  | O => ret (LDone buffer_send x)
  | S n' =>
      d <- f_read buffer_size ;;
      let buffer_send := set_init buffer_send d in
      let buffer_send := set_last buffer_send (crc (py_init buffer_send)) in
      k <- ser_write ser buffer_send ;;
      if (k =? 0)%nat then ret (LReturn 2)
      else
        r <- ser_read ser 2 ;;
        if (length r =? 2)%nat && crc_ok r
        then match fw_status_check r with
             | None => raise TypeError            (* [None > 3] *)
             | Some x' =>
                 if x' >? 3
                 then chunk_loop n' ser buffer_size buffer_send (Some x')
                 else ret (LReturn 0)
             end
        else ret (LReturn 0)
  end.

(** What follows the loop, lines 242-260: the last, shorter chunk, or
    [return x]. *)
Definition final_chunk (ser : serial) (size_remainder : nat)
    (buffer_send : bytes) (x : option Z) : M (option Z) :=
  if (0 <? size_remainder)%nat
  then
    d <- f_read size_remainder ;;
    let buffer_send := set_prefix buffer_send size_remainder d in
    if (size_remainder <? length buffer_send)%nat
    then
      let buffer_send :=
        set_nth buffer_send size_remainder (crc (firstn size_remainder buffer_send)) in
      k <- ser_write ser (firstn (size_remainder + 1) buffer_send) ;;
      if (k =? 0)%nat then ret (Some 2)
      else
        r <- ser_read ser 2 ;;
        if (length r =? 2)%nat && crc_ok r
        then ret (fw_status_check r)
        else ret (Some 0)
    else raise IndexError
  else
    match x with
    | Some v => ret (Some v)
    | None => raise UnboundLocalError
    end.

(** The transfer proper, lines 221-260, once the device has confirmed the
    size: the loop over the full chunks, then the last chunk.
    [size // buffer_size] fails for a sector size of zero. *)
Definition flash_chunks (ser : serial) (size buffer_size : nat)
    (buffer_send : bytes) : M (option Z) :=
  if (buffer_size =? 0)%nat then raise ZeroDivisionError
  else
    l <- chunk_loop (size / buffer_size) ser buffer_size buffer_send None ;;
    match l with
    | LReturn v => ret (Some v)
    | LDone buffer_send x => final_chunk ser (size mod buffer_size) buffer_send x
    end.

(** [_flash_fw], lines 168-272: the whole transfer.  The sector size [ss]
    is the byte the device reported, so it is not negative.  The result is a
    status number, or [None] when the classifier gave nothing for the last
    chunk. *)
Definition _flash_fw (ser : serial) (ss : Z) : M (option Z) :=
  let buffer_size := Z.to_nat (ss * 1024) in
  let buffer_send := bytearray (buffer_size + 1) in
  size <- f_size ;;
  try_except
    (ensure_open ser ;;
     n <- ser_write ser [0x01; 0xfe] ;;
     if (n =? 0)%nat then ret (Some 0)
     else
       r <- ser_read ser 2 ;;
       if (0 <? length r)%nat
       then
         if (py_head r =? 0x75) && crc_ok r
         then
           match to_bytes4 size with
           | None => raise OverflowError
           | Some b4 =>
               let bsize := b4 ++ [crc b4] in
               n <- ser_write ser bsize ;;
               if (n =? 5)%nat
               then
                 r <- ser_read ser 2 ;;
                 if (0 <? length r)%nat
                 then
                   if (length r =? 2)%nat && crc_ok r
                   then
                     if py_head r =? 0x75
                     then flash_chunks ser size buffer_size buffer_send
                     else ret (Some 0)
                   else ret (Some 0)
                 else ret (Some 0)
               else ret (Some 0)
           end
         else ret (Some 2)
       else ret (Some 0))
    is_serial (fun _ => ret (Some 0)).

(** ** The operations of the command line *)

(** [open_port], lines 275-281 *)
Definition open_port : M serial :=
  try_except (h <- Serial_new ;; ret (Some h)) is_serial (fun _ => ret None).

(** [handshake], lines 284-301 *)
Definition handshake : M bool :=
  ser <- open_port ;;
  match ser with
  | Some _ =>
      try_finally
        (try_except
           (handshake_check <- _handshake ser ;;
            if handshake_check then ret true else ret false)
           any_exception (fun _ => ret false))
        (ser_close ser)
  | None => ret false
  end.

(** [get_version], lines 304-322 *)
Definition get_version : M bool :=
  ser <- open_port ;;
  match ser with
  | Some _ =>
      try_finally
        (try_except
           (ver <- _get_version ser ;;
            match ver with
            | Some _ => ret true
            | None => ret false
            end)
           any_exception (fun _ => ret false))
        (ser_close ser)
  | None => ret false
  end.

(** [for retries in range(n):] of [app_start] *)
Fixpoint app_start_loop (n : nat) (ser : serial) : M bool :=
  match n with
  | O => ret false
  | S n' =>
      res <- _app_start ser ;;
      match res with
      | Some true => ret true
      | Some false => app_start_loop n' ser
      | None => app_start_loop n' ser
      end
  end.

(** [app_start], lines 325-346.  It has no [return] after its handlers:
    the result is [True], [False] or [None]. *)
Definition app_start : M (option bool) :=
  ser <- open_port ;;
  match ser with
  | Some _ =>
      try_finally
        (try_except
           (b <- app_start_loop 3 ser ;; ret (Some b))
           any_exception (fun _ => ret None))
        (ser_close ser)
  | None => ret None
  end.

(** [for retries in range(n):] of [update] *)
Fixpoint flash_loop (n : nat) (ser : serial) (ss : Z) : M bool :=
  match n with
  | O => ret false
  | S n' =>
      res <- _flash_fw ser ss ;;
      match res with
      | Some v => if v =? 1 then ret true else flash_loop n' ser ss
      | None => flash_loop n' ser ss
      end
  end.

(** [update], lines 349-380 *)
Definition update : M bool :=
  fun w =>
    if negb (fw_exists w) then (Ret false, w)
    else
      (ser <- open_port ;;
       match ser with
       | Some _ =>
           try_finally
             (try_except
                (f_open ;;
                 ss <- _get_sector_size ser ;;
                 match ss with
                 | None => ret false
                 | Some ss => flash_loop 3 ser ss
                 end)
                any_exception (fun _ => ret false))
             (ser_close ser)
       | None => ret false
       end) w.

(** The bytes of [b"~ \x1c Request Serial Bootloader!! ~"] *)
Definition wake_sequence : bytes :=
  map (fun c => Z.of_N (N_of_ascii c))
      (list_ascii_of_string
         (String.append "~ " (String (ascii_of_nat 28) " Request Serial Bootloader!! ~"))).

(** [request_bootloader], lines 384-429; whether the Klipper service runs
    and what the user answers to the question come from outside. *)
Definition request_bootloader (klipper_active user_agrees : bool) : M bool :=
  if klipper_active && negb user_agrees then ret false
  else
    ser <- open_port ;;
    ver <- _get_version ser ;;
    match ver with
    | Some _ => ret true
    | None =>
        ser_close ser ;;
        ser <- try_except (h <- Serial_new ;; ret (Some h)) is_serial (fun _ => ret None) ;;
        try_except
          (ser_write ser wake_sequence ;;
           ser_close ser ;;
           ser <- open_port ;;
           ok <- _handshake ser ;;
           if ok
           then _get_version ser ;; ret true
           else ret false)
          is_serial (fun _ => ret false)
    end.

(** ** Vocabulary for the statements *)

(** The acknowledgement frame: status [0x75] and its checksum. *)
Definition ack : bytes := [0x75; 0x8a].

Definition port_open (h : nat) (w : world) : Prop := nth h (handles w) false = true.

(** No Serial object is left open. *)
Definition all_closed (w : world) : Prop := forall i, nth i (handles w) false = false.

(** The events a run from [w] to [w'] has added to the trace. *)
Definition added (w w' : world) : list event := skipn (length (trace w)) (trace w').

(** The data of a write, whether it went through or failed. *)
Definition write_data (e : event) : option bytes :=
  match e with
  | EvWrite d _ | EvWriteFail d _ => Some d
  | _ => None
  end.

(** The byte strings that went out over the port, in order. *)
Definition sent (tr : list event) : list bytes :=
  flat_map (fun e => match e with
                     | EvWrite d n => [firstn n d]
                     | _ => []
                     end) tr.

(** The number of calls of [ser.write]. *)
Definition write_calls (tr : list event) : nat :=
  length (filter (fun e => match write_data e with Some _ => true | None => false end) tr).

(** A write that puts at least one byte on the wire. *)
Definition writes_some (o : write_outcome) : bool :=
  match o with
  | WAll => true
  | WCount n => negb (n =? 0)%nat
  | WRaise _ => false
  end.

(** Every write still to come goes through in full. *)
Definition writes_all (w : world) : Prop := Forall (fun o => o = WAll) (write_q w).

(** Chunk number [i] of an image cut into pieces of [B] bytes, and the frame
    that carries a chunk. *)
Definition chunk_at (B : nat) (data : bytes) (i : nat) : bytes :=
  firstn B (skipn (i * B) data).
Definition with_crc (c : bytes) : bytes := c ++ [crc c].

(** The frame that announces the size of the image. *)
Definition size_frame (size : nat) : bytes :=
  match to_bytes4 size with
  | Some b4 => with_crc b4
  | None => []
  end.

(** What a run of a stage leaves unchanged around the port [h], what it has
    sent and what is left of the answers. *)
Record evolves (h : nat) (w w' : world) (frames : list bytes)
    (rq : list read_outcome) : Prop := mk_evolves {
  ev_open : port_open h w';
  ev_handles : handles w' = handles w;
  ev_open_q : open_q w' = open_q w;
  ev_writes : writes_all w';
  ev_reads : read_q w' = rq;
  ev_data : fw_data w' = fw_data w;
  ev_exists : fw_exists w' = fw_exists w;
  ev_sent : sent (trace w') = sent (trace w) ++ frames
}.

(** One exchange on an open port whose write goes through in full: [d]
    goes out, and of the answer [b] at most [n] bytes come in. *)
Definition exchanged (w : world) (d : bytes) (n : nat) (b : bytes) : world :=
  log (pop_read (log (pop_write w) (EvWrite d (length d)))) (EvRead n (firstn n b)).

(** A computation that touches no Serial object but number [h]. *)
Definition keeps_others {A} (h : nat) (m : M A) : Prop :=
  forall w,
    length (handles (snd (m w))) = length (handles w) /\
    forall i, i <> h -> nth i (handles (snd (m w))) false = nth i (handles w) false.

(** An attempt of [app_start] that did not start the application. *)
Definition attempt_failed (a : result (option bool) * world) : Prop :=
  fst a = Ret None \/ fst a = Ret (Some false).

(** ** Worlds for the examples *)

(** Nothing open yet, every write goes through, the device answers [rq],
    and the firmware file holds [img]. *)
Definition fresh (img : bytes) (rq : list read_outcome) : world :=
  mkWorld [] [] [] rq [] true img 0.

(** The same with the port open as Serial object 0. *)
Definition opened (img : bytes) (rq : list read_outcome) : world :=
  mkWorld [true] [] [] rq [] true img 0.

(** An image of [n] bytes. *)
Definition image (n : nat) : bytes := map (fun i => Z.of_nat i mod 256) (seq 0 n).

(** The version response of a device whose firmware failed its check:
    25 zero bytes and their checksum. *)
Definition zero_version : bytes := repeat 0 25 ++ [0xff].

(** A version response with text in it. *)
Definition some_version : bytes :=
  let p := map (fun c => Z.of_N (N_of_ascii c))
               (list_ascii_of_string "K1_MCU_HW_V1.0_FW_V2.3.45") in
  p ++ [crc p].

(** Three answers to the app-start command, none of them a start: nothing,
    a wrong checksum, and the status [0x1f] with its checksum. *)
Definition three_refusals : world :=
  fresh [] [RBytes []; RBytes [0x75; 0x00]; RBytes [0x1f; 0xe0]; RBytes ack].

(** The status "transfer complete" with its checksum. *)
Definition done_frame : bytes := [0x20; 0xdf].

(** A sector size of 1 and an image of 2500 bytes: two full chunks and a
    shorter one; the device accepts everything. *)
Definition w_chunking : world :=
  opened (image 2500) [RBytes ack; RBytes ack; RBytes ack; RBytes ack; RBytes done_frame].

(** An update of an image of exactly one chunk; the device reports the
    sector size 1 and, at each of the three attempts, confirms the request
    and the size and answers "transfer complete" to the chunk. *)
Definition w_done_in_loop : world :=
  fresh (image 1024)
    [RBytes [0x01; 0xfe];
     RBytes ack; RBytes ack; RBytes done_frame;
     RBytes ack; RBytes ack; RBytes done_frame;
     RBytes ack; RBytes ack; RBytes done_frame].

(** An update of 2100 bytes with sector size 1; the device accepts the
    first chunk and answers the second with the status [0x33], which the
    classifier does not know. *)
Definition w_unknown : world :=
  fresh (image 2100)
    [RBytes [0x01; 0xfe]; RBytes ack; RBytes ack; RBytes ack; RBytes [0x33; 0xcc];
     RBytes ack].

(** The status "bad checksum" with its checksum. *)
Definition bad_crc_frame : bytes := [0x1f; 0xe0].

(** An image of exactly two chunks (sector size 1): the device accepts the
    first and answers the second with "bad checksum"; and the same image
    with both chunks accepted. *)
Definition w_refused_last : world :=
  opened (image 2048) [RBytes ack; RBytes ack; RBytes ack; RBytes bad_crc_frame].

(** ** The script around the operations *)

(** The flags of the command line that choose the operations, and whether
    [--file] was given. *)
Record arguments : Type := mkArgs {
  arg_request_bootloader : bool;
  arg_handshake : bool;
  arg_version : bool;
  arg_update : bool;
  arg_appstart : bool;
  arg_file : bool
}.

(** The value of the variable [exit_code]: the number 0 it starts with, or
    what the last operation returned. *)
Inductive exit_code : Type :=
| ExitZero
| ExitBool (b : bool)
| ExitNone.

Definition exit_of_option (r : option bool) : exit_code :=
  match r with
  | Some b => ExitBool b
  | None => ExitNone
  end.

(** [update(args)] as the script calls it, lines 349-350: without [--file],
    [args.file] is [None] and [Path(None)] raises [TypeError] before
    anything else. *)
Definition update_args (a : arguments) : M bool :=
  if arg_file a then update else raise TypeError.

(** The last lines of the script, 458-470, up to the value handed to
    [sys.exit]. *)
Definition script (a : arguments) (klipper_active user_agrees : bool) : M exit_code :=
  if arg_request_bootloader a
  then b <- request_bootloader klipper_active user_agrees ;; ret (ExitBool b)
  else
    c <- (if arg_handshake a then b <- handshake ;; ret (ExitBool b) else ret ExitZero) ;;
    c <- (if arg_version a then b <- get_version ;; ret (ExitBool b) else ret c) ;;
    c <- (if arg_update a
          then update_args a ;; r <- app_start ;; ret (exit_of_option r)
          else ret c) ;;
    if arg_appstart a then r <- app_start ;; ret (exit_of_option r) else ret c.

(** [sys.exit(exit_code)], line 472: the exit status of the process.  [None]
    and [False] give 0, and [True], being the integer 1, gives 1. *)
Definition sys_exit (c : exit_code) : Z :=
  match c with
  | ExitZero => 0
  | ExitBool true => 1
  | ExitBool false => 0
  | ExitNone => 0
  end.

(** ** More vocabulary *)


(** Every attempt still to come to open the port succeeds. *)
Definition opens_all (w : world) : Prop := Forall (fun o => o = None) (open_q w).


(** The frames of a whole transfer of the image [data] in chunks of [B]
    bytes: the request, the size, the full chunks and the shorter last one. *)
Definition transfer_plan (B : nat) (data : bytes) : list bytes :=
  [[0x01; 0xfe]; size_frame (length data)] ++
  map (fun i => with_crc (chunk_at B data i)) (seq 0 (length data / B)) ++
  (if (length data mod B =? 0)%nat then []
   else [with_crc (skipn (length data / B * B) data)]).

(** An attempt of the transfer that did not end with the status 1. *)
Definition flash_failed (a : result (option Z) * world) : Prop :=
  exists v, fst a = Ret v /\ v <> Some 1.

(** ** More worlds for the examples *)

(** The port cannot be opened. *)
Definition unplugged : world :=
  mkWorld [] [Some SerialException] [] [] [] true (image 10) 0.

(** A complete update of 2500 bytes with sector size 1: the device accepts
    everything and answers the last chunk with "transfer complete". *)
Definition w_update_ok : world :=
  fresh (image 2500)
    [RBytes [0x01; 0xfe]; RBytes ack; RBytes ack; RBytes ack; RBytes ack;
     RBytes done_frame].

(** Three attempts of an update, each refused at the request. *)
Definition w_update_refused : world :=
  fresh (image 2500)
    [RBytes [0x01; 0xfe]; RBytes [0x1f; 0xe0]; RBytes [0x1f; 0xe0]; RBytes [0x1f; 0xe0];
     RBytes ack].

(** The device does not answer the sector-size query. *)
Definition w_no_sector_size : world := fresh (image 2500) [RBytes []; RBytes ack].

(** A device in its application: no answer to the version query, then the
    handshake is confirmed and a version comes. *)
Definition w_enter_bootloader : world :=
  fresh [] [RBytes []; RBytes [0x75]; RBytes some_version].

(** The frames [_flash_fw] has sent after the request and the size frame
    are [chunks], each with its checksum, and the lengths of the chunks add
    up to the length of the image. *)
Definition whole_image_sent (h : nat) (ss : Z) (w : world) : Prop :=
  exists chunks : list bytes,
    sent (trace (snd (_flash_fw (Some h) ss w))) =
      sent (trace w) ++ [[0x01; 0xfe]; size_frame (length (fw_data w))] ++
      map with_crc chunks /\
    list_sum (map (@length Z) chunks) = length (fw_data w).

(** A device that reports the sector size 0 and confirms the request and
    the size of an image of 10 bytes. *)
Definition w_zero_sector : world := opened (image 10) [RBytes ack; RBytes ack].

(** An image of two chunks (sector size 1) whose first chunk the device
    answers with "bad checksum". *)
Definition w_refused_first : world :=
  opened (image 2048) [RBytes ack; RBytes ack; RBytes bad_crc_frame; RBytes ack].

(** An image of 2^32 zero bytes, one more than the size field can hold. *)
Definition w_huge : world := opened (repeat 0 (Z.to_nat (2 ^ 32))) [RBytes ack; RBytes ack].

(** * Properties *)

(** ** The checksum *)

Lemma land_255_mod (x : Z) : Z.land x 0xff = x mod 256.
Proof. change 0xff with (Z.ones 8). now rewrite Z.land_ones. Qed.

Lemma lxor_255_range (m : Z) : 0 <= m < 256 -> 0 <= Z.lxor m 0xff < 256.
Proof.
  intros Hm. split.
  - apply Z.lxor_nonneg. lia.
  - destruct (Z.eq_dec (Z.lxor m 0xff) 0) as [E | E]; [lia |].
    assert (Hpos : 0 < Z.lxor m 0xff).
    { assert (0 <= Z.lxor m 0xff) by (apply Z.lxor_nonneg; lia). lia. }
    change 256 with (2 ^ 8). apply Z.log2_lt_pow2; [exact Hpos |].
    assert (Hl : Z.log2 (Z.lxor m 0xff) <= Z.max (Z.log2 m) (Z.log2 0xff))
      by (apply Z.log2_lxor; lia).
    assert (Hm' : Z.log2 m < 8).
    { destruct (Z.eq_dec m 0) as [-> | Hz]; [reflexivity |].
      apply Z.log2_lt_pow2; lia. }
    change (Z.log2 0xff) with 7 in Hl. lia.
Qed.

Lemma fold_crc_sum (b : bytes) : forall acc,
  0 <= acc < 256 ->
  fold_left (fun x i => Z.land (x + i) 0xff) b acc = (acc + sum_bytes b) mod 256.
Proof.
  induction b as [| a t IH]; intros acc Hacc; simpl.
  - rewrite Z.add_0_r. symmetry. now apply Z.mod_small.
  - rewrite IH.
    + rewrite land_255_mod, Z.add_mod_idemp_l by lia. f_equal. lia.
    + rewrite land_255_mod. apply Z.mod_pos_bound. lia.
Qed.

Lemma crc_sum (b : bytes) : crc b = Z.lxor (sum_bytes b mod 256) 0xff.
Proof. unfold crc. rewrite fold_crc_sum by lia. reflexivity. Qed.

Lemma crc_range (b : bytes) : 0 <= crc b < 256.
Proof.
  rewrite crc_sum. apply lxor_255_range. apply Z.mod_pos_bound. lia.
Qed.

Lemma py_init_snoc (b : bytes) (c : Z) : py_init (b ++ [c]) = b.
Proof. unfold py_init. apply removelast_last. Qed.

Lemma py_last_snoc (b : bytes) (c : Z) : py_last (b ++ [c]) = c.
Proof. unfold py_last. apply last_last. Qed.

Lemma crc_ok_snoc (b : bytes) : crc_ok (b ++ [crc b]) = true.
Proof. unfold crc_ok. rewrite py_init_snoc, py_last_snoc. apply Z.eqb_refl. Qed.

(** C1.  The checksum of any byte sequence is the sum of its bytes modulo
    256, XORed with 0xFF, and it is a byte.  For the frame made of the
    sequence and its checksum, the check of a response (the checksum of all
    bytes but the last, compared with the last) computes the checksum of the
    sequence again and finds it equal to the last byte. *)
Theorem crc_checksum_and_validation (b : bytes) :
  crc b = Z.lxor (sum_bytes b mod 256) 0xFF /\
  0 <= crc b < 256 /\
  crc (py_init (b ++ [crc b])) = crc b /\
  py_last (b ++ [crc b]) = crc b /\
  crc_ok (b ++ [crc b]) = true.
Proof.
  repeat split.
  - apply crc_sum.
  - apply crc_range.
  - apply crc_range.
  - now rewrite py_init_snoc.
  - apply py_last_snoc.
  - apply crc_ok_snoc.
Qed.

(** ** Running a stage by cases *)

Lemma skipn_length_app {A} (l l' : list A) : skipn (length l) (l ++ l') = l'.
Proof. induction l; simpl; auto. Qed.

Lemma skipn_length {A} (l : list A) : skipn (length l) l = [].
Proof. induction l; simpl; auto. Qed.

Lemma min_1_nonzero (n : nat) : (Nat.min n 1 =? 0)%nat = false -> Nat.min n 1 = 1%nat.
Proof. destruct n as [| [| n]]; simpl; congruence. Qed.

(** One case split on the innermost scrutinee of the goal. *)
Ltac case_step :=
  match goal with
  | |- context [match ?x with _ => _ end] =>
      lazymatch x with
      | context [match _ with _ => _ end] => fail
      | _ => destruct x eqn:?
      end
  end.

Ltac simp_world :=
  cbn [fst snd handles open_q write_q read_q trace fw_exists fw_data fw_pos
       set_handles set_open_q set_write_q set_read_q log set_fw_pos
       pop_open pop_write pop_read next_open next_write next_read negb
       is_serial any_exception length Nat.eqb Nat.ltb Nat.leb] in *.

Ltac run_stage := repeat (simp_world; case_step); simp_world.

Ltac simp_added :=
  unfold added in *; simp_world;
  rewrite <- ?app_assoc in *; cbn [app] in *;
  rewrite ?skipn_length_app, ?skipn_length in *.

Ltac finish_cases :=
  repeat match goal with
         | H : (Nat.min _ 1 =? 0)%nat = false |- _ =>
             rewrite (min_1_nonzero _ H) in *; clear H
         | H : (_ =? _) = true |- _ => apply Z.eqb_eq in H
         | H : (_ =? _) = false |- _ => apply Z.eqb_neq in H
         end.

Ltac unfold_stage :=
  unfold ensure_open, try_except, ser_is_open, ser_open, ser_write, ser_read,
    ret, raise, bind.

(** ** Handshake *)

(** The stage on a port that is open once the stage has made sure of it:
    when the write puts the byte on the wire and the read returns [b], the
    traffic is the byte 0x75 written and one byte read, and the result says
    whether that byte is 0x75. *)
Lemma handshake_exchange (h : nat) (w : world) (b : bytes) :
  port_open h (snd (ensure_open (Some h) w)) ->
  writes_some (next_write w) = true ->
  next_read w = RBytes b ->
  added w (snd (_handshake (Some h) w)) = [EvWrite [0x75] 1; EvRead 1 (firstn 1 b)] /\
  fst (_handshake (Some h) w) = Ret (match b with x :: _ => x =? 0x75 | [] => false end).
Proof.
  intros Ho Hw Hr.
  set (w0 := snd (ensure_open (Some h) w)) in *.
  assert (He : ensure_open (Some h) w = (Ret tt, w0) /\
               trace w0 = trace w /\ write_q w0 = write_q w /\ read_q w0 = read_q w).
  { unfold w0, port_open in *. revert Ho.
    unfold ensure_open, bind, ser_is_open, ser_open, ret.
    destruct (nth h (handles w) false) eqn:E; cbn [negb fst snd].
    - intros _. repeat split.
    - rewrite E. destruct (next_open w) as [e |]; cbn [snd].
      + cbn. rewrite E. discriminate.
      + intros _. repeat split. }
  destruct He as (He & Ht & Hwq & Hrq).
  assert (Hw0 : writes_some (next_write w0) = true)
    by (unfold next_write in *; now rewrite Hwq).
  assert (Hr0 : next_read w0 = RBytes b) by (unfold next_read in *; now rewrite Hrq).
  assert (Hadd : forall w1 evs, trace w1 = trace w0 ++ evs -> added w w1 = evs).
  { intros w1 evs H. unfold added. rewrite H, Ht. apply skipn_length_app. }
  assert (Hread : forall w1, nth h (handles w1) false = true -> next_read w1 = RBytes b ->
            trace w1 = trace w0 ++ [EvWrite [0x75] 1] ->
            exists w2,
              (r <- ser_read (Some h) 1 ;;
               if (0 <? length r)%nat
               then if py_head r =? 0x75 then ret true else ret false
               else ret false) w1 =
              (Ret (match b with x :: _ => x =? 0x75 | [] => false end), w2) /\
              added w w2 = [EvWrite [0x75] 1; EvRead 1 (firstn 1 b)]).
  { intros w1 H1 H2 H3. unfold bind, ser_read. rewrite H1, H2. cbn [negb].
    exists (log (pop_read w1) (EvRead 1 (firstn 1 b))). split.
    - destruct b as [| x t]; cbn [firstn length Nat.ltb Nat.leb py_head hd];
        [reflexivity |]. destruct (x =? 117); reflexivity.
    - apply Hadd. cbn [trace log pop_read set_read_q]. rewrite H3, <- app_assoc. reflexivity. }
  assert (Run : exists w2,
            _handshake (Some h) w =
              (Ret (match b with x :: _ => x =? 0x75 | [] => false end), w2) /\
            added w w2 = [EvWrite [0x75] 1; EvRead 1 (firstn 1 b)]).
  { unfold _handshake, try_except. unfold bind at 1. rewrite He.
    unfold bind at 1. unfold ser_write. unfold port_open in Ho. rewrite Ho. cbn [negb].
    destruct (next_write w0) as [| n | e] eqn:En; cbn [writes_some] in Hw0; [| | discriminate].
    - cbn [length Nat.eqb].
      match goal with |- context [log (pop_write w0) ?ev] =>
        destruct (Hread (log (pop_write w0) ev)) as (w2 & Hrun & Ha);
          [exact Ho | exact Hr0 | reflexivity |]
      end.
      exists w2. rewrite Hrun. split; [reflexivity | exact Ha].
    - destruct n as [| n]; [discriminate |].
      replace (Nat.min (S n) (length [117])) with 1%nat by (destruct n; reflexivity).
      cbn [Nat.eqb].
      match goal with |- context [log (pop_write w0) ?ev] =>
        destruct (Hread (log (pop_write w0) ev)) as (w2 & Hrun & Ha);
          [exact Ho | exact Hr0 | reflexivity |]
      end.
      exists w2. rewrite Hrun. split; [reflexivity | exact Ha]. }
  destruct Run as (w2 & Hrun & Ha). rewrite Hrun. split; [exact Ha | reflexivity].
Qed.

(** C7.  The handshake stage writes nothing but the single byte 0x75, and it
    returns success if and only if what went over the port during the call is
    that byte written and one byte read back that equals 0x75.  Any other
    byte, an empty read, a write that puts nothing on the wire and any
    exception of the port give a result that is not success.  And the stage
    does send the byte: on a port that is open once the stage has made sure
    of it, with a write that reaches the wire and a read that returns [b],
    the traffic of the call is exactly 0x75 written and one byte read; the
    result is success when the first byte of [b] is 0x75 and failure for
    every other byte and for an empty read. *)
Theorem handshake_success_iff (ser : serial) (w : world) :
  let w' := snd (_handshake ser w) in
  trace w' = trace w ++ added w w' /\
  (forall e d, In e (added w w') -> write_data e = Some d -> d = [0x75]) /\
  (fst (_handshake ser w) = Ret true <->
   added w w' = [EvWrite [0x75] 1; EvRead 1 [0x75]]) /\
  (forall h b,
     ser = Some h ->
     port_open h (snd (ensure_open ser w)) ->
     writes_some (next_write w) = true ->
     next_read w = RBytes b ->
     added w w' = [EvWrite [0x75] 1; EvRead 1 (firstn 1 b)] /\
     fst (_handshake ser w) = Ret (match b with x :: _ => x =? 0x75 | [] => false end)).
Proof.
  assert (H : let w' := snd (_handshake ser w) in
              trace w' = trace w ++ added w w' /\
              (forall e d, In e (added w w') -> write_data e = Some d -> d = [0x75]) /\
              (fst (_handshake ser w) = Ret true <->
               added w w' = [EvWrite [0x75] 1; EvRead 1 [0x75]])).
  { unfold _handshake. unfold_stage.
    run_stage; simp_added; finish_cases;
      (split; [now rewrite ?app_nil_r |
       split; [intros ? ? Hin Hd; simpl in Hin;
               repeat (destruct Hin as [<- | Hin]; [simpl in Hd; congruence |]); easy |
               split; intros Heq; try reflexivity; try congruence; try discriminate]]).
    all: match goal with b : bytes |- _ => destruct b; unfold py_head in *; simpl in * end;
         subst; try reflexivity; try discriminate; try congruence. }
  cbv zeta in *. destruct H as (H1 & H2 & H3).
  refine (conj H1 (conj H2 (conj H3 _))).
  intros h b -> Ho Hw Hr. exact (handshake_exchange h w b Ho Hw Hr).
Qed.

Lemma handshake_success_iff_witness :
  fst (_handshake (Some 0%nat) (opened [] [RBytes [0x75]])) = Ret true /\
  added (opened [] [RBytes [0x75]])
        (snd (_handshake (Some 0%nat) (opened [] [RBytes [0x75]]))) =
    [EvWrite [0x75] 1; EvRead 1 [0x75]] /\
  fst (_handshake (Some 0%nat) (opened [] [RBytes [0x1f]])) = Ret false /\
  fst (_handshake (Some 0%nat) (opened [] [RBytes []])) = Ret false /\
  fst (_handshake (Some 0%nat) (mkWorld [false] [] [] [RBytes [0x75]] [] true [] 0)) =
    Ret true.
Proof.
  destruct (handshake_success_iff (Some 0%nat) (opened [] [RBytes [0x75]]))
    as (_ & _ & _ & Hecho).
  destruct (Hecho 0%nat [0x75] eq_refl eq_refl eq_refl eq_refl) as [Ha Hr].
  destruct (handshake_success_iff (Some 0%nat) (opened [] [RBytes [0x1f]]))
    as (_ & _ & _ & Hother).
  destruct (Hother 0%nat [0x1f] eq_refl eq_refl eq_refl eq_refl) as [_ Hr'].
  destruct (handshake_success_iff (Some 0%nat) (opened [] [RBytes []]))
    as (_ & _ & _ & Hnone).
  destruct (Hnone 0%nat [] eq_refl eq_refl eq_refl eq_refl) as [_ Hr''].
  destruct (handshake_success_iff (Some 0%nat)
              (mkWorld [false] [] [] [RBytes [0x75]] [] true [] 0))
    as (_ & _ & _ & Hclosed).
  destruct (Hclosed 0%nat [0x75] eq_refl eq_refl eq_refl eq_refl) as [_ Hr3].
  exact (conj Hr (conj Ha (conj Hr' (conj Hr'' Hr3)))).
Defined.

(** ** Running the port calls on an open port *)

Lemma ensure_open_open (h : nat) (w : world) :
  port_open h w -> ensure_open (Some h) w = (Ret tt, w).
Proof.
  unfold port_open, ensure_open, bind, ser_is_open. intros ->. reflexivity.
Qed.

Lemma ser_write_some (h : nat) (d : bytes) (w : world) :
  port_open h w -> writes_some (next_write w) = true -> d <> [] ->
  exists k, (k =? 0)%nat = false /\
            ser_write (Some h) d w = (Ret k, log (pop_write w) (EvWrite d k)).
Proof.
  unfold port_open, ser_write. intros -> Hw Hd. simpl negb. cbv iota.
  destruct (next_write w) as [| n | e]; simpl in Hw; try discriminate.
  - exists (length d). split; [| reflexivity].
    destruct d; [congruence | reflexivity].
  - exists (Nat.min n (length d)). split; [| reflexivity].
    destruct n; [discriminate |]. destruct d; [congruence | reflexivity].
Qed.

Lemma ser_write_all (h : nat) (d : bytes) (w : world) :
  port_open h w -> next_write w = WAll ->
  ser_write (Some h) d w = (Ret (length d), log (pop_write w) (EvWrite d (length d))).
Proof. unfold port_open, ser_write. intros -> ->. reflexivity. Qed.

Lemma ser_read_bytes (h n : nat) (b : bytes) (w : world) :
  port_open h w -> next_read w = RBytes b ->
  ser_read (Some h) n w = (Ret (firstn n b), log (pop_read w) (EvRead n (firstn n b))).
Proof. unfold port_open, ser_read. intros -> ->. reflexivity. Qed.

Lemma crc_ok_pair (x y : Z) : crc_ok [x; y] = (y =? crc [x]).
Proof. reflexivity. Qed.

(** ** App start: the stage *)

Lemma app_start_result (h : nat) (w : world) (b : bytes) :
  port_open h w ->
  writes_some (next_write w) = true ->
  next_read w = RBytes b ->
  fst (_app_start (Some h) w) =
  Ret (match firstn 2 b with
       | [] => None
       | r => Some ((py_head r =? 0x75) && crc_ok r)
       end).
Proof.
  intros Hopen Hw Hr.
  unfold _app_start, try_except, bind.
  rewrite (ensure_open_open _ _ Hopen).
  destruct (ser_write_some h [0x02; 0xfd] w Hopen Hw) as (k & Hk & ->); [discriminate |].
  rewrite Hk.
  rewrite (ser_read_bytes h 2 b); [| exact Hopen | exact Hr].
  destruct (firstn 2 b) as [| x t]; [reflexivity |].
  cbn [length Nat.ltb Nat.leb].
  destruct ((py_head (x :: t) =? 117) && crc_ok (x :: t)); reflexivity.
Qed.

(** C5 does not hold as stated: a response of two bytes whose checksum is wrong,
    and a response of a single byte, are both reported as "start failed"
    ([False]), not as "indeterminate" ([None]). *)
Lemma app_start_bad_checksum_is_start_failed :
  crc_ok [0x75; 0x00] = false /\
  fst (_app_start (Some 0%nat) (opened [] [RBytes [0x75; 0x00]])) = Ret (Some false) /\
  fst (_app_start (Some 0%nat) (opened [] [RBytes [0x75; 0x00]])) <> Ret None /\
  fst (_app_start (Some 0%nat) (opened [] [RBytes [0x75]])) = Ret (Some false).
Proof. repeat split; discriminate. Qed.

(** C5, amended.  With the port open, the command written and [r] the
    bytes the read returned: the stage reports success exactly when [r] is
    the status 0x75 with its checksum; it reports "start failed" for a
    checksum-valid response with another status, and also for any other
    response that is not empty (a wrong checksum, a single byte); it reports
    "indeterminate" exactly when [r] is empty. *)
Theorem app_start_three_way (h : nat) (w : world) (b : bytes) :
  port_open h w ->
  writes_some (next_write w) = true ->
  next_read w = RBytes b ->
  let r := firstn 2 b in
  let res := fst (_app_start (Some h) w) in
  (res = Ret (Some true) <-> r = [0x75; crc [0x75]]) /\
  (forall s, s <> 0x75 -> r = [s; crc [s]] -> res = Ret (Some false)) /\
  (r <> [] -> (length r < 2)%nat \/ crc_ok r = false -> res = Ret (Some false)) /\
  (res = Ret None <-> r = []).
Proof.
  intros Hopen Hw Hr. cbv zeta.
  rewrite (app_start_result h w b Hopen Hw Hr).
  destruct b as [| x [| y t]]; cbn [firstn].
  - repeat split; intros; congruence.
  - assert (E : (py_head [x] =? 117) && crc_ok [x] = false).
    { unfold crc_ok, py_head. simpl. change (crc []) with 255.
      destruct (x =? 117) eqn:Ex; [| reflexivity].
      apply Z.eqb_eq in Ex. subst x. reflexivity. }
    rewrite E. repeat split; intros; congruence.
  - rewrite crc_ok_pair. unfold py_head, hd.
    repeat split.
    + intros H. injection H as H. apply andb_prop in H as [Ex Ey].
      apply Z.eqb_eq in Ex, Ey. now subst.
    + intros H. injection H as -> ->. now rewrite !Z.eqb_refl.
    + intros s Hs H. injection H as -> ->.
      apply Z.eqb_neq in Hs. now rewrite Hs.
    + intros _ [H | H]; [simpl in H; lia |].
      now rewrite H, andb_false_r.
    + discriminate.
    + discriminate.
Qed.

Lemma app_start_three_way_witness :
  port_open 0 (opened [] [RBytes [0x75; 0x00]]) /\
  writes_some (next_write (opened [] [RBytes [0x75; 0x00]])) = true /\
  next_read (opened [] [RBytes [0x75; 0x00]]) = RBytes [0x75; 0x00] /\
  fst (_app_start (Some 0%nat) (opened [] [RBytes [0x75; 0x00]])) = Ret (Some false).
Proof.
  split; [reflexivity | split; [reflexivity | split; [reflexivity |]]].
  apply (app_start_three_way 0 (opened [] [RBytes [0x75; 0x00]]) [0x75; 0x00]
           eq_refl eq_refl eq_refl).
  - discriminate.
  - right. reflexivity.
Defined.

(** ** Version *)

(** C4 does not hold as stated: for 25 zero bytes and their checksum the stage
    returns the text of 25 NUL characters, which is neither [None] nor the
    empty string, and the operation reports success just as it does for a
    response that carries a version. *)
Lemma zero_version_returned_as_version :
  crc (repeat 0 25) = 0xff /\
  fst (_get_version (Some 0%nat) (opened [] [RBytes zero_version])) =
    Ret (Some (decode_latin (repeat 0 25))) /\
  decode_latin (repeat 0 25) <> EmptyString /\
  String.length (decode_latin (repeat 0 25)) = 25%nat /\
  fst (get_version (fresh [] [RBytes zero_version])) = Ret true /\
  fst (get_version (fresh [] [RBytes some_version])) = Ret true.
Proof. repeat split; discriminate. Qed.

(** C4, amended.  For a response of 25 bytes followed by their checksum,
    the 25 zero bytes of a device without usable firmware included, the
    stage does not raise and returns the 25 bytes decoded as Latin-1 text;
    there is no other result for the zero bytes. *)
Theorem get_version_returns_payload (h : nat) (w : world) (p : bytes) :
  port_open h w ->
  writes_some (next_write w) = true ->
  length p = 25%nat ->
  next_read w = RBytes (p ++ [crc p]) ->
  fst (_get_version (Some h) w) = Ret (Some (decode_latin p)).
Proof.
  intros Hopen Hw Hp Hr.
  unfold _get_version, try_except, bind.
  rewrite (ensure_open_open _ _ Hopen).
  destruct (ser_write_some h [0x00; 0xff] w Hopen Hw) as (k & Hk & ->); [discriminate |].
  rewrite Hk.
  rewrite (ser_read_bytes h 26 (p ++ [crc p])); [| exact Hopen | exact Hr].
  assert (Hlen : length (p ++ [crc p]) = 26%nat) by (rewrite length_app, Hp; reflexivity).
  rewrite firstn_all2 by lia.
  rewrite Hlen, py_init_snoc. cbn [Nat.ltb Nat.leb Nat.eqb andb].
  replace (nth 25 (p ++ [crc p]) 0) with (crc p)
    by (rewrite <- Hp; symmetry; apply nth_middle).
  rewrite Z.eqb_refl. reflexivity.
Qed.

Lemma get_version_returns_payload_witness :
  port_open 0 (opened [] [RBytes zero_version]) /\
  writes_some (next_write (opened [] [RBytes zero_version])) = true /\
  length (repeat 0 25) = 25%nat /\
  next_read (opened [] [RBytes zero_version]) = RBytes (repeat 0 25 ++ [crc (repeat 0 25)]) /\
  fst (_get_version (Some 0%nat) (opened [] [RBytes zero_version])) =
    Ret (Some (decode_latin (repeat 0 25))).
Proof.
  split; [reflexivity | split; [reflexivity | split; [reflexivity | split; [reflexivity |]]]].
  apply (get_version_returns_payload 0 (opened [] [RBytes zero_version]) (repeat 0 25));
    reflexivity.
Defined.

(** ** App start: the retries *)

Lemma write_calls_app (a b : list event) :
  write_calls (a ++ b) = (write_calls a + write_calls b)%nat.
Proof. unfold write_calls. now rewrite filter_app, length_app. Qed.

Lemma app_start_stage_writes (ser : serial) (w : world) :
  (write_calls (trace (snd (_app_start ser w))) <= write_calls (trace w) + 1)%nat.
Proof.
  unfold _app_start. unfold_stage.
  run_stage; unfold write_calls; rewrite ?filter_app, ?length_app; simpl; lia.
Qed.

Lemma app_start_loop_writes (n : nat) (ser : serial) : forall w,
  (write_calls (trace (snd (app_start_loop n ser w))) <= write_calls (trace w) + n)%nat.
Proof.
  induction n as [| n IH]; intros w; simpl.
  - lia.
  - unfold bind. pose proof (app_start_stage_writes ser w) as H1.
    destruct (_app_start ser w) as [[[[|]|]|e] w1]; simpl in *;
      try (specialize (IH w1)); lia.
Qed.

Lemma open_port_trace (w : world) : trace (snd (open_port w)) = trace w.
Proof.
  unfold open_port, try_except, bind, Serial_new, ret.
  run_stage; reflexivity.
Qed.

Lemma app_start_writes (w : world) :
  (write_calls (trace (snd (app_start w))) <= write_calls (trace w) + 3)%nat.
Proof.
  unfold app_start. unfold bind at 1.
  pose proof (open_port_trace w) as Ho.
  destruct (open_port w) as [[[h|]|e] w1]; cbn [fst snd ret] in *;
    try (rewrite Ho; lia).
  unfold try_finally, try_except, ser_close. unfold bind at 1.
  pose proof (app_start_loop_writes 3 (Some h) w1) as Hl.
  destruct (app_start_loop 3 (Some h) w1) as [[b|e] w2];
    cbn [fst snd ret trace set_handles any_exception] in *; rewrite <- Ho; lia.
Qed.

Lemma app_start_opened (w : world) (h : nat) (w1 : world) :
  open_port w = (Ret (Some h), w1) ->
  app_start w =
  try_finally
    (try_except (b <- app_start_loop 3 (Some h) ;; ret (Some b))
       any_exception (fun _ => ret None))
    (ser_close (Some h)) w1.
Proof. intros Ho. unfold app_start. unfold bind at 1. now rewrite Ho. Qed.

(** C8.  Once the port is open, [app_start] runs the app-start exchange at
    most three times: it never makes more than three writes; when the three
    attempts are inconclusive or failed it returns [False], and the world it
    leaves is the one after the third attempt with the port closed, so there
    is no fourth attempt; when an attempt succeeds it returns [True] from
    the world right after that attempt; and it returns [True] only if one of
    the three attempts succeeded. *)
Theorem app_start_at_most_three (w : world) (h : nat) (w1 : world) :
  open_port w = (Ret (Some h), w1) ->
  let a1 := _app_start (Some h) w1 in
  let a2 := _app_start (Some h) (snd a1) in
  let a3 := _app_start (Some h) (snd a2) in
  let closed := fun w' => snd (ser_close (Some h) w') in
  (write_calls (trace (snd (app_start w))) <= write_calls (trace w) + 3)%nat /\
  (attempt_failed a1 -> attempt_failed a2 -> attempt_failed a3 ->
   app_start w = (Ret (Some false), closed (snd a3))) /\
  (fst a1 = Ret (Some true) -> app_start w = (Ret (Some true), closed (snd a1))) /\
  (attempt_failed a1 -> fst a2 = Ret (Some true) ->
   app_start w = (Ret (Some true), closed (snd a2))) /\
  (attempt_failed a1 -> attempt_failed a2 -> fst a3 = Ret (Some true) ->
   app_start w = (Ret (Some true), closed (snd a3))) /\
  (fst (app_start w) = Ret (Some true) ->
   fst a1 = Ret (Some true) \/ fst a2 = Ret (Some true) \/ fst a3 = Ret (Some true)).
Proof.
  intros Ho. cbv zeta. split; [apply app_start_writes |].
  rewrite (app_start_opened w h w1 Ho).
  unfold try_finally, try_except, attempt_failed. simpl app_start_loop.
  unfold bind, ret.
  destruct (_app_start (Some h) w1) as [[[[|]|]|e1] u1]; simpl;
  destruct (_app_start (Some h) u1) as [[[[|]|]|e2] u2]; simpl;
  destruct (_app_start (Some h) u2) as [[[[|]|]|e3] u3]; simpl;
  repeat split; intros; auto;
    repeat match goal with
           | H : _ \/ _ |- _ => destruct H
           end; try discriminate; try congruence.
Qed.

Lemma app_start_at_most_three_witness :
  open_port three_refusals = (Ret (Some 0%nat), snd (open_port three_refusals)) /\
  fst (app_start three_refusals) = Ret (Some false) /\
  read_q (snd (app_start three_refusals)) = [RBytes ack].
Proof.
  split; [reflexivity |].
  destruct (app_start_at_most_three three_refusals 0 (snd (open_port three_refusals))
              eq_refl) as (_ & H & _).
  rewrite H.
  - split; reflexivity.
  - left. reflexivity.
  - right. reflexivity.
  - right. reflexivity.
Defined.

(** ** Flashing: lists, buffers and single exchanges *)

Lemma firstn_plus {A} (a b : nat) : forall l : list A,
  firstn (a + b) l = firstn a l ++ firstn b (skipn a l).
Proof.
  induction a as [| a IH]; intros l; simpl; [reflexivity |].
  destruct l as [| x l]; simpl.
  - now rewrite firstn_nil.
  - now rewrite IH.
Qed.

Lemma skipn_one {A} (B : nat) : forall buf : list A,
  length buf = S B -> exists z, skipn B buf = [z].
Proof.
  induction B as [| B IH]; intros [| x buf] H; simpl in H; try discriminate.
  - destruct buf; [| discriminate]. now exists x.
  - apply IH. now injection H.
Qed.

Lemma buffer_full_chunk (B : nat) (buf c : bytes) :
  length buf = S B ->
  let b1 := set_init buf c in
  set_last b1 (crc (py_init b1)) = with_crc c.
Proof.
  intros H. cbv zeta. unfold set_init, set_last. rewrite H.
  replace (S B - 1)%nat with B by lia.
  destruct (skipn_one B buf H) as [z ->].
  now rewrite py_init_snoc.
Qed.

Lemma sent_app (a b : list event) : sent (a ++ b) = sent a ++ sent b.
Proof. unfold sent. apply flat_map_app. Qed.

Lemma writes_all_next (w : world) : writes_all w -> next_write w = WAll.
Proof.
  unfold writes_all, next_write. intros H.
  destruct (write_q w); [reflexivity |]. now inversion H.
Qed.

Lemma writes_all_pop (w : world) : writes_all w -> Forall (fun o => o = WAll) (tl (write_q w)).
Proof.
  unfold writes_all. intros H.
  destruct (write_q w); simpl; [constructor |]. now inversion H.
Qed.

Lemma evolves_refl (h : nat) (w : world) :
  port_open h w -> writes_all w -> evolves h w w [] (read_q w).
Proof.
  intros Ho Hw. constructor; auto. now rewrite app_nil_r.
Qed.

Lemma evolves_trans (h : nat) (w w1 w2 : world) f1 f2 rq1 rq2 :
  evolves h w w1 f1 rq1 -> evolves h w1 w2 f2 rq2 -> evolves h w w2 (f1 ++ f2) rq2.
Proof.
  intros [] []. constructor; try congruence.
  rewrite app_assoc. congruence.
Qed.

Lemma exchanged_evolves (h : nat) (w : world) (d : bytes) (n : nat) (b : bytes) :
  port_open h w -> writes_all w ->
  evolves h w (exchanged w d n b) [d] (tl (read_q w)).
Proof.
  intros Ho Hw. constructor; try reflexivity; try assumption.
  - now apply writes_all_pop.
  - cbn. rewrite !sent_app. cbn. now rewrite firstn_all, app_nil_r.
Qed.

Lemma chunk_at_length (B : nat) (data : bytes) (k : nat) :
  (S k * B <= length data)%nat -> length (chunk_at B data k) = B.
Proof.
  intros H. unfold chunk_at. rewrite length_firstn, length_skipn. simpl in H. lia.
Qed.

Lemma chunk_step_ack (h B n k : nat) (buf : bytes) (x : option Z) (w : world) :
  port_open h w -> writes_all w -> length buf = S B ->
  next_read w = RBytes ack ->
  fw_pos w = (k * B)%nat ->
  chunk_loop (S n) (Some h) B buf x w =
  chunk_loop n (Some h) B (with_crc (chunk_at B (fw_data w) k)) (Some 4)
    (exchanged (set_fw_pos w (fw_pos w + length (chunk_at B (fw_data w) k)))
       (with_crc (chunk_at B (fw_data w) k)) 2 ack).
Proof.
  intros Ho Hw Hb Hr Hp.
  cbn [chunk_loop]. unfold bind at 1. unfold f_read. rewrite Hp.
  fold (chunk_at B (fw_data w) k).
  rewrite (buffer_full_chunk B buf _ Hb).
  unfold bind at 1.
  rewrite ser_write_all; [| exact Ho | now apply writes_all_next].
  assert (Hl : (length (with_crc (chunk_at B (fw_data w) k)) =? 0)%nat = false).
  { unfold with_crc. rewrite length_app. simpl. apply Nat.eqb_neq. lia. }
  rewrite Hl. unfold bind at 1.
  rewrite (ser_read_bytes h 2 ack); [| exact Ho | exact Hr].
  reflexivity.
Qed.

Lemma chunk_loop_acks (h B : nat) : forall j n k buf x w rq,
  port_open h w -> writes_all w -> length buf = S B ->
  read_q w = repeat (RBytes ack) j ++ rq ->
  fw_pos w = (k * B)%nat -> ((k + j) * B <= length (fw_data w))%nat ->
  exists w' buf' x',
    chunk_loop (j + n) (Some h) B buf x w = chunk_loop n (Some h) B buf' x' w' /\
    length buf' = S B /\
    x' = (if (j =? 0)%nat then x else Some 4) /\
    fw_pos w' = ((k + j) * B)%nat /\
    evolves h w w' (map (fun i => with_crc (chunk_at B (fw_data w) i)) (seq k j)) rq.
Proof.
  induction j as [| j IH]; intros n k buf x w rq Ho Hw Hb Hr Hp Hlen.
  - exists w, buf, x. simpl in Hr. subst rq.
    refine (conj _ (conj _ (conj _ (conj _ _)))); auto.
    + rewrite Hp. f_equal. lia.
    + now apply evolves_refl.
  - simpl in Hr.
    assert (Hc : length (chunk_at B (fw_data w) k) = B)
      by (apply chunk_at_length; simpl; lia).
    set (c := with_crc (chunk_at B (fw_data w) k)).
    set (w1 := exchanged (set_fw_pos w (fw_pos w + length (chunk_at B (fw_data w) k))) c 2 ack).
    assert (E1 : evolves h w w1 [c] (repeat (RBytes ack) j ++ rq)).
    { pose proof (exchanged_evolves h
                    (set_fw_pos w (fw_pos w + length (chunk_at B (fw_data w) k))) c 2 ack Ho Hw)
        as E.
      cbn [read_q set_fw_pos] in E. rewrite Hr in E. cbn [tl] in E.
      destruct E. constructor; assumption. }
    destruct (IH n (S k) c (Some 4) w1 rq) as (w' & buf' & x' & Hrun & Hb' & Hx' & Hp' & E2).
    + apply E1.
    + apply E1.
    + unfold c, with_crc. rewrite length_app, Hc. simpl. lia.
    + apply E1.
    + subst w1. cbn. rewrite Hp, Hc. lia.
    + rewrite (ev_data _ _ _ _ _ E1). lia.
    + exists w', buf', x'. refine (conj _ (conj _ (conj _ (conj _ _)))).
      * change (S j + n)%nat with (S (j + n)).
        rewrite (chunk_step_ack h B (j + n) k buf x w Ho Hw Hb);
          [exact Hrun | unfold next_read; now rewrite Hr | exact Hp].
      * exact Hb'.
      * rewrite Hx'. simpl. now destruct (j =? 0)%nat.
      * rewrite Hp'. f_equal. lia.
      * rewrite (ev_data _ _ _ _ _ E1) in E2.
        apply (evolves_trans h w w1 w' _ _ _ _ E1 E2).
Qed.

Lemma try_except_bind {A C} (m : M A) (k : A -> M C) hd hdl (w w1 : world) (a : A) :
  m w = (Ret a, w1) ->
  try_except (bind m k) hd hdl w = try_except (k a) hd hdl w1.
Proof. intros H. unfold try_except, bind. now rewrite H. Qed.

Lemma to_bytes4_some (L : nat) :
  Z.of_nat L < 2 ^ 32 ->
  exists b4, to_bytes4 L = Some b4 /\ length b4 = 4%nat.
Proof.
  intros H. unfold to_bytes4. apply Z.ltb_lt in H. cbv zeta. rewrite H.
  eexists. split; reflexivity.
Qed.

Lemma flash_fw_negotiated (h : nat) (ss : Z) (w : world) (rq : list read_outcome) :
  let L := length (fw_data w) in
  let B := Z.to_nat (ss * 1024) in
  port_open h w -> writes_all w -> Z.of_nat L < 2 ^ 32 ->
  read_q w = RBytes ack :: RBytes ack :: rq ->
  exists w2,
    _flash_fw (Some h) ss w =
      try_except (flash_chunks (Some h) L B (bytearray (B + 1)))
        is_serial (fun _ => ret (Some 0)) w2 /\
    fw_pos w2 = 0%nat /\
    evolves h w w2 [[0x01; 0xfe]; size_frame L] rq.
Proof.
  intros L B Ho Hw HL Hr.
  destruct (to_bytes4_some L HL) as (b4 & Hb4 & Hlen4).
  set (w0 := set_fw_pos w 0).
  set (w1 := exchanged w0 [0x01; 0xfe] 2 ack).
  set (w2 := exchanged w1 (with_crc b4) 2 ack).
  assert (E1 : evolves h w0 w1 [[0x01; 0xfe]] (RBytes ack :: rq)).
  { pose proof (exchanged_evolves h w0 [0x01; 0xfe] 2 ack Ho Hw) as E.
    cbn [read_q set_fw_pos w0] in E. rewrite Hr in E. exact E. }
  assert (E2 : evolves h w1 w2 [with_crc b4] rq).
  { pose proof (exchanged_evolves h w1 (with_crc b4) 2 ack (ev_open _ _ _ _ _ E1)
                  (ev_writes _ _ _ _ _ E1)) as E.
    rewrite (ev_reads _ _ _ _ _ E1) in E. exact E. }
  exists w2. refine (conj _ (conj _ _)).
  - unfold _flash_fw. fold B. unfold bind at 1. unfold f_size. fold L. fold w0.
    rewrite (try_except_bind _ _ _ _ w0 w0 tt) by (now apply ensure_open_open).
    rewrite (try_except_bind _ _ _ _ w0 (log (pop_write w0) (EvWrite [1; 254] 2)) 2%nat)
      by (apply ser_write_all; [exact Ho | now apply writes_all_next]).
    cbn [Nat.eqb].
    rewrite (try_except_bind _ _ _ _ _ w1 ack).
    2:{ rewrite (ser_read_bytes h 2 ack); [reflexivity | exact Ho |].
        unfold next_read. cbn. now rewrite Hr. }
    change ((0 <? length ack)%nat) with true.
    change ((py_head ack =? 117) && crc_ok ack) with true. cbv iota.
    rewrite Hb4. fold (with_crc b4).
    rewrite (try_except_bind _ _ _ _ w1 (log (pop_write w1) (EvWrite (with_crc b4) 5)) 5%nat).
    2:{ rewrite ser_write_all.
        - unfold with_crc. rewrite length_app, Hlen4. reflexivity.
        - apply E1.
        - apply writes_all_next, E1. }
    cbn [Nat.eqb].
    rewrite (try_except_bind _ _ _ _ _ w2 ack).
    2:{ rewrite (ser_read_bytes h 2 ack).
        - unfold w2, exchanged, with_crc. rewrite length_app, Hlen4. reflexivity.
        - apply E1.
        - unfold next_read. cbn [read_q log pop_write set_write_q].
          now rewrite (ev_reads _ _ _ _ _ E1). }
    change ((0 <? length ack)%nat) with true.
    change ((length ack =? 2)%nat && crc_ok ack) with true.
    change (py_head ack =? 117) with true. cbv iota.
    reflexivity.
  - reflexivity.
  - unfold size_frame. fold L. rewrite Hb4.
    assert (E0 : evolves h w w0 [] (read_q w)).
    { constructor; try reflexivity; try assumption. now rewrite app_nil_r. }
    apply (evolves_trans h w w0 w2 [] _ _ _ E0).
    apply (evolves_trans h w0 w1 w2 [_] [_] _ _ E1 E2).
Qed.

Lemma set_nth_app (d : bytes) (z v : Z) (rest : bytes) :
  set_nth (d ++ z :: rest) (length d) v = d ++ v :: rest.
Proof. induction d as [| a d IH]; simpl; [reflexivity | now rewrite IH]. Qed.

Lemma firstn_succ_app (d : bytes) (v : Z) (rest : bytes) :
  firstn (length d + 1) (d ++ v :: rest) = d ++ [v].
Proof. induction d as [| a d IH]; simpl; [reflexivity | now rewrite IH]. Qed.

Lemma firstn_length_app (d rest : bytes) : firstn (length d) (d ++ rest) = d.
Proof. induction d as [| a d IH]; simpl; [reflexivity | now rewrite IH]. Qed.

(** The buffer for the last chunk: [rem] bytes of data over a buffer that
    is longer than that. *)
Lemma buffer_last_chunk (buf d : bytes) :
  (length d < length buf)%nat ->
  let b1 := set_prefix buf (length d) d in
  (length d <? length b1)%nat = true /\
  firstn (length d + 1) (set_nth b1 (length d) (crc (firstn (length d) b1))) = with_crc d.
Proof.
  intros H. cbv zeta. unfold set_prefix.
  assert (Hs : exists z rest, skipn (length d) buf = z :: rest).
  { destruct (skipn (length d) buf) as [| z rest] eqn:E.
    - apply (f_equal (@length Z)) in E. rewrite length_skipn in E. simpl in E. lia.
    - now exists z, rest. }
  destruct Hs as (z & rest & ->). split.
  - apply Nat.ltb_lt. rewrite length_app. simpl. lia.
  - rewrite firstn_length_app, set_nth_app. apply firstn_succ_app.
Qed.

(** The last chunk is what is left of the image after the full chunks. *)
Lemma last_chunk_data (B q rem : nat) (data : bytes) :
  (q * B + rem = length data)%nat ->
  firstn rem (skipn (q * B) data) = skipn (q * B) data /\
  length (skipn (q * B) data) = rem.
Proof.
  intros H. assert (Hl : length (skipn (q * B) data) = rem)
    by (rewrite length_skipn; lia).
  split; [| exact Hl]. apply firstn_all2. lia.
Qed.

(** The last chunk up to the point where its frame has been written. *)
Lemma final_chunk_written (h B q rem : nat) (buf : bytes) (x : option Z) (w : world) :
  port_open h w -> writes_all w -> length buf = S B ->
  (0 < rem <= B)%nat ->
  fw_pos w = (q * B)%nat -> (q * B + rem = length (fw_data w))%nat ->
  let d := skipn (q * B) (fw_data w) in
  final_chunk (Some h) rem buf x w =
  (r <- ser_read (Some h) 2 ;;
   if (length r =? 2)%nat && crc_ok r then ret (fw_status_check r) else ret (Some 0))
    (log (pop_write (set_fw_pos w (q * B + rem)))
       (EvWrite (with_crc d) (length (with_crc d)))).
Proof.
  intros Ho Hw Hb Hrem Hp Hlen. cbv zeta.
  destruct (last_chunk_data B q rem (fw_data w) Hlen) as [Hd Hdl].
  unfold final_chunk.
  replace (0 <? rem)%nat with true by (symmetry; apply Nat.ltb_lt; lia).
  unfold bind at 1. unfold f_read. rewrite Hp, Hd.
  set (d := skipn (q * B) (fw_data w)) in *.
  destruct (buffer_last_chunk buf d) as [H1 H2]; [lia |].
  rewrite <- Hdl. rewrite H1, H2.
  unfold bind at 1.
  rewrite (ser_write_all h (with_crc d)); [| exact Ho | now apply writes_all_next].
  replace (length (with_crc d) =? 0)%nat with false
    by (unfold with_crc; rewrite length_app; simpl; symmetry; apply Nat.eqb_neq; lia).
  reflexivity.
Qed.

(** The last chunk goes out whatever the device answers to it. *)
Lemma final_chunk_sent (h B q rem : nat) (buf : bytes) (x : option Z) (w : world) :
  port_open h w -> writes_all w -> length buf = S B ->
  (0 < rem <= B)%nat ->
  fw_pos w = (q * B)%nat -> (q * B + rem = length (fw_data w))%nat ->
  exists res w',
    final_chunk (Some h) rem buf x w = (res, w') /\
    sent (trace w') = sent (trace w) ++ [with_crc (skipn (q * B) (fw_data w))] /\
    handles w' = handles w /\
    read_q w' = tl (read_q w).
Proof.
  intros Ho Hw Hb Hrem Hp Hlen.
  rewrite (final_chunk_written h B q rem buf x w Ho Hw Hb Hrem Hp Hlen).
  set (d := skipn (q * B) (fw_data w)).
  unfold bind, ser_read.
  replace (nth h (handles (log (pop_write (set_fw_pos w (q * B + rem)))
                             (EvWrite (with_crc d) (length (with_crc d))))) false)
    with true by (symmetry; exact Ho).
  cbn [negb].
  destruct (next_read _) as [b | e];
    [destruct ((length (firstn 2 b) =? 2)%nat && crc_ok (firstn 2 b)) |];
    eexists; eexists; (split; [reflexivity |]);
    cbn [trace log handles read_q pop_read pop_write set_read_q set_write_q set_fw_pos];
    rewrite !sent_app; cbn [sent flat_map app];
    rewrite firstn_all, !app_nil_r; auto.
Qed.


Lemma concat_chunks (B : nat) (data : bytes) (q : nat) :
  concat (map (chunk_at B data) (seq 0 q)) = firstn (q * B) data.
Proof.
  induction q as [| q IH]; [reflexivity |].
  rewrite seq_S, map_app, concat_app, IH. cbn [map concat plus].
  rewrite app_nil_r. unfold chunk_at.
  replace (S q * B)%nat with (q * B + B)%nat by (simpl; lia).
  symmetry. apply firstn_plus.
Qed.

Lemma snd_try_except_ret {A} (m : M A) hd (v : A) (w : world) :
  snd (try_except m hd (fun _ => ret v) w) = snd (m w).
Proof.
  unfold try_except, ret. destruct (m w) as [[a | e] w']; [reflexivity |].
  now destruct (hd e).
Qed.

Lemma bytearray_length (n : nat) : length (bytearray n) = n.
Proof. apply repeat_length. Qed.

Lemma div_mod_chunks (L B : nat) :
  (0 < B)%nat -> ((L / B) * B + L mod B = L)%nat /\ (L mod B < B)%nat.
Proof.
  intros H. split.
  - pose proof (Nat.div_mod_eq L B). lia.
  - apply Nat.mod_upper_bound. lia.
Qed.

(** C2.  On an open port whose writes go through, with a sector size
    [ss > 0], an image of [L] bytes that fits the 32-bit size field, and a
    device that confirms the request and the size and accepts every full
    chunk: after the request and the size frame, the transfer sends
    [L / B] chunks of exactly [B = ss * 1024] data bytes, then one shorter
    chunk if and only if [L mod B] is not zero, each followed by its
    checksum; the chunks in the order sent make up the image, so their
    lengths add up to [L]. *)
Theorem flash_fw_chunking (h : nat) (ss : Z) (w : world) (rq : list read_outcome) :
  let L := length (fw_data w) in
  let B := Z.to_nat (ss * 1024) in
  port_open h w -> writes_all w -> 0 < ss -> Z.of_nat L < 2 ^ 32 ->
  read_q w = RBytes ack :: RBytes ack :: repeat (RBytes ack) (L / B) ++ rq ->
  exists full partial : list bytes,
    sent (trace (snd (_flash_fw (Some h) ss w))) =
      sent (trace w) ++ [[0x01; 0xfe]; size_frame L] ++ map with_crc (full ++ partial) /\
    length full = (L / B)%nat /\
    Forall (fun c => length c = B) full /\
    (length partial = 1%nat <-> (L mod B <> 0)%nat) /\
    (length partial <= 1)%nat /\
    Forall (fun c => (0 < length c < B)%nat) partial /\
    concat (full ++ partial) = fw_data w /\
    list_sum (map (@length Z) (full ++ partial)) = L.
Proof.
  intros L B Ho Hw Hss HL Hr.
  assert (HB : (0 < B)%nat) by (unfold B; lia).
  destruct (div_mod_chunks L B HB) as [Hdm Hrem].
  set (q := (L / B)%nat) in *. set (rem := (L mod B)%nat) in *.
  set (full := map (chunk_at B (fw_data w)) (seq 0 q)).
  set (partial := if (rem =? 0)%nat then [] else [skipn (q * B) (fw_data w)]).
  assert (Hcat : concat (full ++ partial) = fw_data w).
  { rewrite concat_app. unfold full. rewrite concat_chunks. unfold partial.
    destruct (rem =? 0)%nat eqn:E.
    - apply Nat.eqb_eq in E. cbn [concat]. rewrite app_nil_r.
      apply firstn_all2. fold L. lia.
    - cbn [concat]. rewrite app_nil_r. apply firstn_skipn. }
  exists full, partial.
  refine (conj _ (conj _ (conj _ (conj _ (conj _ (conj _ (conj Hcat _))))))).
  - destruct (flash_fw_negotiated h ss w (repeat (RBytes ack) q ++ rq) Ho Hw HL Hr)
      as (w2 & -> & Hp2 & E2).
    fold L B. rewrite snd_try_except_ret.
    destruct (chunk_loop_acks h B q 0 0 (bytearray (B + 1)) None w2 rq)
      as (w3 & buf3 & x3 & Hrun & Hb3 & Hx3 & Hp3 & E3).
    { apply E2. } { apply E2. } { rewrite bytearray_length. lia. } { apply E2. }
    { rewrite Hp2. reflexivity. }
    { rewrite (ev_data _ _ _ _ _ E2). fold L. simpl. lia. }
    rewrite Nat.add_0_r in Hrun. cbn [chunk_loop] in Hrun.
    unfold flash_chunks.
    replace (B =? 0)%nat with false by (symmetry; apply Nat.eqb_neq; lia).
    unfold bind. fold q. rewrite Hrun. unfold ret at 1. fold rem.
    rewrite (ev_data _ _ _ _ _ E2) in E3.
    pose proof (evolves_trans h w w2 w3 _ _ _ _ E2 E3) as E.
    rewrite map_app. unfold full at 1. rewrite map_map.
    unfold partial. destruct (rem =? 0)%nat eqn:Erem.
    + apply Nat.eqb_eq in Erem. unfold final_chunk. rewrite Erem. cbn [Nat.ltb Nat.leb].
      cbn [map]. rewrite app_nil_r.
      destruct x3; cbn [snd ret raise]; rewrite (ev_sent _ _ _ _ _ E); reflexivity.
    + apply Nat.eqb_neq in Erem.
      destruct (final_chunk_sent h B q rem buf3 x3 w3) as (res & w4 & -> & Hs & _).
      { apply E3. } { apply E3. } { exact Hb3. } { lia. }
      { rewrite Hp3. reflexivity. }
      { rewrite (ev_data _ _ _ _ _ E). fold L. lia. }
      cbn [snd]. rewrite Hs, (ev_sent _ _ _ _ _ E), (ev_data _ _ _ _ _ E).
      cbn [map]. rewrite <- !app_assoc. reflexivity.
  - unfold full. now rewrite length_map, length_seq.
  - unfold full. apply Forall_forall. intros c Hc.
    apply in_map_iff in Hc as (i & <- & Hi). apply in_seq in Hi.
    apply chunk_at_length. fold L. nia.
  - unfold partial. destruct (rem =? 0)%nat eqn:E.
    + apply Nat.eqb_eq in E. simpl. split; [discriminate | congruence].
    + apply Nat.eqb_neq in E. simpl. tauto.
  - unfold partial. destruct (rem =? 0)%nat; simpl; lia.
  - unfold partial. destruct (rem =? 0)%nat eqn:E; constructor; [| constructor].
    apply Nat.eqb_neq in E. rewrite length_skipn. fold L. lia.
  - rewrite <- length_concat, Hcat. reflexivity.
Qed.

Lemma flash_fw_chunking_witness :
  port_open 0 w_chunking /\
  writes_all w_chunking /\
  0 < 1 /\
  Z.of_nat (length (fw_data w_chunking)) < 2 ^ 32 /\
  read_q w_chunking =
    RBytes ack :: RBytes ack ::
    repeat (RBytes ack) (length (fw_data w_chunking) / Z.to_nat (1 * 1024)) ++ [RBytes done_frame] /\
  exists full partial : list bytes,
    sent (trace (snd (_flash_fw (Some 0%nat) 1 w_chunking))) =
      [[0x01; 0xfe]; size_frame 2500] ++ map with_crc (full ++ partial) /\
    length full = 2%nat /\
    length partial = 1%nat /\
    concat (full ++ partial) = image 2500.
Proof.
  assert (H1 : port_open 0 w_chunking) by reflexivity.
  assert (H2 : writes_all w_chunking) by constructor.
  assert (H3 : 0 < 1) by lia.
  assert (H4 : Z.of_nat (length (fw_data w_chunking)) < 2 ^ 32) by (vm_compute; reflexivity).
  assert (H5 : read_q w_chunking =
    RBytes ack :: RBytes ack ::
    repeat (RBytes ack) (length (fw_data w_chunking) / Z.to_nat (1 * 1024)) ++ [RBytes done_frame])
    by (vm_compute; reflexivity).
  refine (conj H1 (conj H2 (conj H3 (conj H4 (conj H5 _))))).
  destruct (flash_fw_chunking 0 1 w_chunking [RBytes done_frame] H1 H2 H3 H4 H5)
    as (full & partial & Hs & Hf & _ & Hp & _ & _ & Hc & _).
  exists full, partial. refine (conj Hs (conj Hf (conj _ Hc))).
  apply Hp. vm_compute. discriminate.
Defined.

Lemma status_not_accepted (r : bytes) :
  length r = 2%nat -> py_head r <> 0x75 ->
  match fw_status_check r with
  | Some x => (x >? 3) = false
  | None => True
  end.
Proof.
  intros Hl Hh. unfold fw_status_check. rewrite Hl. cbn [Nat.eqb].
  apply Z.eqb_neq in Hh. rewrite Hh.
  repeat match goal with |- context [if ?c then _ else _] => destruct c end;
    auto.
Qed.

Lemma chunk_step_reject (h B n k : nat) (buf r : bytes) (x : option Z) (w : world) :
  port_open h w -> writes_all w -> length buf = S B ->
  next_read w = RBytes r -> length r = 2%nat -> crc_ok r = true -> py_head r <> 0x75 ->
  fw_pos w = (k * B)%nat ->
  chunk_loop (S n) (Some h) B buf x w =
  (match fw_status_check r with
   | Some _ => Ret (LReturn 0)
   | None => Raise TypeError
   end,
   exchanged (set_fw_pos w (fw_pos w + length (chunk_at B (fw_data w) k)))
     (with_crc (chunk_at B (fw_data w) k)) 2 r).
Proof.
  intros Ho Hw Hb Hr Hl Hcrc Hh Hp.
  cbn [chunk_loop]. unfold bind at 1. unfold f_read. rewrite Hp.
  fold (chunk_at B (fw_data w) k).
  rewrite (buffer_full_chunk B buf _ Hb).
  unfold bind at 1.
  rewrite ser_write_all; [| exact Ho | now apply writes_all_next].
  assert (Hlc : (length (with_crc (chunk_at B (fw_data w) k)) =? 0)%nat = false).
  { unfold with_crc. rewrite length_app. simpl. apply Nat.eqb_neq. lia. }
  rewrite Hlc. unfold bind at 1.
  rewrite (ser_read_bytes h 2 r); [| exact Ho | exact Hr].
  rewrite firstn_all2 by lia. rewrite Hl, Hcrc. cbn [Nat.eqb andb].
  pose proof (status_not_accepted r Hl Hh) as Hs.
  unfold exchanged. rewrite firstn_all2 by lia.
  destruct (fw_status_check r) as [v |]; [rewrite Hs |]; reflexivity.
Qed.

Lemma flash_fw_stops (h : nat) (ss : Z) (w : world) (j : nat) (r : bytes)
    (rq : list read_outcome) :
  let L := length (fw_data w) in
  let B := Z.to_nat (ss * 1024) in
  port_open h w -> writes_all w -> 0 < ss -> Z.of_nat L < 2 ^ 32 ->
  (j < L / B)%nat ->
  length r = 2%nat -> crc_ok r = true -> py_head r <> 0x75 ->
  read_q w = RBytes ack :: RBytes ack :: repeat (RBytes ack) j ++ RBytes r :: rq ->
  exists w',
    _flash_fw (Some h) ss w =
      (match fw_status_check r with
       | Some _ => Ret (Some 0)
       | None => Raise TypeError
       end, w') /\
    evolves h w w'
      ([[0x01; 0xfe]; size_frame L] ++
       map (fun i => with_crc (chunk_at B (fw_data w) i)) (seq 0 (S j))) rq.
Proof.
  intros L B Ho Hw Hss HL Hj Hl Hcrc Hh Hr.
  assert (HB : (0 < B)%nat) by (unfold B; lia).
  destruct (div_mod_chunks L B HB) as [Hdm Hrem].
  destruct (flash_fw_negotiated h ss w _ Ho Hw HL Hr) as (w2 & -> & Hp2 & E2).
  fold L B.
  destruct (chunk_loop_acks h B j (L / B - j) 0 (bytearray (B + 1)) None w2 (RBytes r :: rq))
    as (w3 & buf3 & x3 & Hrun & Hb3 & Hx3 & Hp3 & E3).
  { apply E2. } { apply E2. } { rewrite bytearray_length. lia. } { apply E2. }
  { rewrite Hp2. reflexivity. }
  { rewrite (ev_data _ _ _ _ _ E2). fold L. simpl. nia. }
  replace (j + (L / B - j))%nat with (L / B)%nat in Hrun by lia.
  rewrite (ev_data _ _ _ _ _ E2) in E3.
  pose proof (evolves_trans h w w2 w3 _ _ _ _ E2 E3) as E.
  destruct (L / B - j)%nat as [| n] eqn:En; [lia |].
  rewrite (chunk_step_reject h B n (0 + j) buf3 r x3 w3) in Hrun;
    [| apply E3 | apply E3 | exact Hb3 | unfold next_read; now rewrite (ev_reads _ _ _ _ _ E3)
     | exact Hl | exact Hcrc | exact Hh | exact Hp3].
  eexists. split.
  - unfold try_except, flash_chunks.
    replace (B =? 0)%nat with false by (symmetry; apply Nat.eqb_neq; lia).
    unfold bind. rewrite Hrun.
    destruct (fw_status_check r); reflexivity.
  - rewrite seq_S, map_app, app_assoc. cbn [map].
    apply (evolves_trans h w w3 _ _ _ _ _ E).
    rewrite <- (ev_data _ _ _ _ _ E).
    pose proof (exchanged_evolves h
                  (set_fw_pos w3 (fw_pos w3 + length (chunk_at B (fw_data w3) (0 + j))))
                  (with_crc (chunk_at B (fw_data w3) (0 + j))) 2 r
                  (ev_open _ _ _ _ _ E3) (ev_writes _ _ _ _ _ E3)) as E4.
    cbn [read_q set_fw_pos] in E4. rewrite (ev_reads _ _ _ _ _ E3) in E4.
    destruct E4. constructor; assumption.
Qed.

(** The two preconditions of the transfer that the device and the file
    decide: a sector size of zero stops it with [ZeroDivisionError] once the
    size is confirmed, and an image that does not fit the 32-bit size field
    stops it with [OverflowError] once the request is confirmed.  No chunk is
    sent in either case. *)
Lemma flash_fw_zero_sector_size (h : nat) (w : world) (rq : list read_outcome) :
  port_open h w -> writes_all w -> Z.of_nat (length (fw_data w)) < 2 ^ 32 ->
  read_q w = RBytes ack :: RBytes ack :: rq ->
  fst (_flash_fw (Some h) 0 w) = Raise ZeroDivisionError.
Proof.
  intros Ho Hw HL Hr.
  destruct (flash_fw_negotiated h 0 w rq Ho Hw HL Hr) as (w2 & -> & _).
  reflexivity.
Qed.

Lemma flash_fw_image_too_large (h : nat) (ss : Z) (w : world) (rq : list read_outcome) :
  port_open h w -> writes_all w -> 2 ^ 32 <= Z.of_nat (length (fw_data w)) ->
  read_q w = RBytes ack :: rq ->
  fst (_flash_fw (Some h) ss w) = Raise OverflowError /\
  sent (trace (snd (_flash_fw (Some h) ss w))) = sent (trace w) ++ [[0x01; 0xfe]].
Proof.
  intros Ho Hw HL Hr.
  assert (E : _flash_fw (Some h) ss w =
              (Raise OverflowError, exchanged (set_fw_pos w 0) [0x01; 0xfe] 2 ack)).
  { unfold _flash_fw. unfold bind at 1. unfold f_size.
    set (w0 := set_fw_pos w 0).
    rewrite (try_except_bind _ _ _ _ w0 w0 tt) by (now apply ensure_open_open).
    rewrite (try_except_bind _ _ _ _ w0 (log (pop_write w0) (EvWrite [1; 254] 2)) 2%nat)
      by (apply ser_write_all; [exact Ho | now apply writes_all_next]).
    cbn [Nat.eqb].
    rewrite (try_except_bind _ _ _ _ _ (exchanged w0 [0x01; 0xfe] 2 ack) ack).
    2:{ rewrite (ser_read_bytes h 2 ack); [reflexivity | exact Ho |].
        unfold next_read. cbn. now rewrite Hr. }
    change ((0 <? length ack)%nat) with true.
    change ((py_head ack =? 117) && crc_ok ack) with true. cbv iota.
    unfold to_bytes4. cbv zeta.
    replace (Z.of_nat (length (fw_data w)) <? 2 ^ 32) with false
      by (symmetry; apply Z.ltb_ge; exact HL).
    reflexivity. }
  rewrite E. split; [reflexivity |].
  unfold exchanged. cbn [snd trace log pop_read pop_write set_read_q set_write_q set_fw_pos].
  rewrite !sent_app. cbn [sent flat_map app firstn length]. now rewrite app_nil_r.
Qed.

(** C2, as it is written, for every image and every sector size: three
    transfers in which the image does not go out.  With the sector size 0
    the division of line 222 raises after the size frame; a device that
    answers the first of two chunks with "bad checksum" gets one chunk; an
    image of 2^32 bytes does not fit the four bytes of the size.  In none of
    them do the lengths of the chunks sent add up to the length of the
    image. *)
Lemma chunking_needs_a_transfer_that_runs_through :
  (fst (_flash_fw (Some 0%nat) 0 w_zero_sector) = Raise ZeroDivisionError /\
   sent (trace (snd (_flash_fw (Some 0%nat) 0 w_zero_sector))) =
     [[0x01; 0xfe]; size_frame 10] /\
   ~ whole_image_sent 0 0 w_zero_sector) /\
  (fst (_flash_fw (Some 0%nat) 1 w_refused_first) = Ret (Some 0) /\
   sent (trace (snd (_flash_fw (Some 0%nat) 1 w_refused_first))) =
     [[0x01; 0xfe]; size_frame 2048; with_crc (firstn 1024 (image 2048))] /\
   (length (fw_data w_refused_first) / Z.to_nat (1 * 1024) = 2)%nat /\
   ~ whole_image_sent 0 1 w_refused_first) /\
  (Z.of_nat (length (fw_data w_huge)) = 2 ^ 32 /\
   fst (_flash_fw (Some 0%nat) 1 w_huge) = Raise OverflowError /\
   sent (trace (snd (_flash_fw (Some 0%nat) 1 w_huge))) = [[0x01; 0xfe]] /\
   ~ whole_image_sent 0 1 w_huge).
Proof.
  split; [| split].
  - assert (Hs : sent (trace (snd (_flash_fw (Some 0%nat) 0 w_zero_sector))) =
                 [[0x01; 0xfe]; size_frame 10]) by (vm_compute; reflexivity).
    refine (conj _ (conj Hs _)); [vm_compute; reflexivity |].
    intros (chunks & Hc & Hsum). rewrite Hs in Hc.
    change (sent (trace w_zero_sector)) with (@nil bytes) in Hc.
    change (length (fw_data w_zero_sector)) with 10%nat in Hc, Hsum.
    cbn [app] in Hc. injection Hc as Hc.
    destruct chunks; [discriminate Hsum | discriminate Hc].
  - set (c0 := firstn 1024 (image 2048)).
    assert (Hc0 : length c0 = 1024%nat) by (vm_compute; reflexivity).
    assert (Hs : sent (trace (snd (_flash_fw (Some 0%nat) 1 w_refused_first))) =
                 [[0x01; 0xfe]; size_frame 2048; with_crc c0])
      by (vm_compute; reflexivity).
    assert (Hl : length (fw_data w_refused_first) = 2048%nat) by (vm_compute; reflexivity).
    refine (conj _ (conj Hs (conj _ _))); [vm_compute; reflexivity | vm_compute; reflexivity |].
    clearbody c0.
    intros (chunks & Hc & Hsum). rewrite Hs, Hl in Hc. rewrite Hl in Hsum.
    change (sent (trace w_refused_first)) with (@nil bytes) in Hc.
    cbn [app] in Hc.
    assert (Hm : [with_crc c0] = map with_crc chunks) by congruence.
    destruct chunks as [| c [| c' chunks]]; cbn [map] in Hm; try discriminate Hm.
    assert (Hw : with_crc c0 = with_crc c) by congruence.
    apply (f_equal (@length Z)) in Hw.
    unfold with_crc in Hw. rewrite !length_app in Hw. cbn [length] in Hw.
    unfold list_sum in Hsum. cbn [map fold_right] in Hsum. lia.
  - assert (Hl : Z.of_nat (length (fw_data w_huge)) = 2 ^ 32).
    { unfold w_huge, opened. cbn [fw_data]. rewrite repeat_length. apply Z2Nat.id. lia. }
    destruct (flash_fw_image_too_large 0 1 w_huge [RBytes ack]) as [Hr Hs];
      [reflexivity | constructor | rewrite Hl; lia | reflexivity |].
    change (sent (trace w_huge)) with (@nil bytes) in Hs. cbn [app] in Hs.
    refine (conj Hl (conj Hr (conj Hs _))).
    intros (chunks & Hc & _). rewrite Hs in Hc.
    change (sent (trace w_huge)) with (@nil bytes) in Hc.
    cbn [app] in Hc. discriminate Hc.
Qed.

(** ** Flashing: what the answer to a chunk decides *)




(** C3, the code at the failing input.  The device answers the only chunk
    of an image of exactly one chunk with "transfer complete" (0x20) and a
    valid checksum.  The classifier gives 1, the number [update] takes for
    success, but the transfer returns 0; [update] repeats the whole transfer
    three times, ten writes in all, and reports failure. *)
Theorem complete_status_in_loop_reported_as_failure :
  crc_ok done_frame = true /\
  fw_status_check done_frame = Some 1 /\
  fst (_flash_fw (Some 0%nat) 1 (opened (image 1024) [RBytes ack; RBytes ack; RBytes done_frame])) =
    Ret (Some 0) /\
  fst (update w_done_in_loop) = Ret false /\
  write_calls (trace (snd (update w_done_in_loop))) = 10%nat /\
  read_q (snd (update w_done_in_loop)) = [].
Proof. vm_compute. repeat split. Qed.

(** The same defect seen on an image of exactly two chunks: "transfer
    complete" as the answer to the last full chunk gives the result 0, while
    the same answer to a final shorter chunk gives 1. *)
Lemma complete_status_after_last_full_chunk :
  fw_status_check done_frame = Some 1 /\
  fst (_flash_fw (Some 0%nat) 1
         (opened (image 2048) [RBytes ack; RBytes ack; RBytes ack; RBytes done_frame])) =
    Ret (Some 0) /\
  fst (_flash_fw (Some 0%nat) 1
         (opened (image 2049)
            [RBytes ack; RBytes ack; RBytes ack; RBytes ack; RBytes done_frame])) =
    Ret (Some 1).
Proof. vm_compute. repeat split. Qed.

(** ** Flashing: the result and the last frame *)




(** ** Serial objects and their flags *)

Lemma set_flag_length (l : list bool) (h : nat) (b : bool) :
  length (set_flag l h b) = length l.
Proof.
  revert h. induction l as [| x l IH]; intros [| h]; simpl; auto.
Qed.

Lemma nth_set_flag_other (l : list bool) (h i : nat) (b : bool) :
  i <> h -> nth i (set_flag l h b) false = nth i l false.
Proof.
  revert h i. induction l as [| x l IH]; intros [| h] [| i] H; simpl; auto.
  congruence.
Qed.

Lemma nth_set_flag_same (l : list bool) (h : nat) (b : bool) :
  (h < length l)%nat -> nth h (set_flag l h b) false = b.
Proof.
  revert h. induction l as [| x l IH]; intros [| h] H; simpl in *; try lia; auto.
  apply IH. lia.
Qed.

(** ** Update: a status the classifier does not know *)

Lemma get_sector_size_result (h : nat) (w : world) (ss : Z) :
  port_open h w -> writes_all w -> next_read w = RBytes [ss; crc [ss]] ->
  _get_sector_size (Some h) w =
  (Ret (Some ss), exchanged w [0x03; 0xfc] 2 [ss; crc [ss]]).
Proof.
  intros Ho Hw Hr. unfold _get_sector_size, try_except, bind.
  rewrite (ensure_open_open _ _ Ho).
  rewrite ser_write_all; [| exact Ho | now apply writes_all_next].
  cbn [length Nat.eqb].
  rewrite (ser_read_bytes h 2 [ss; crc [ss]]); [| exact Ho | exact Hr].
  cbn [firstn length Nat.ltb Nat.leb Nat.eqb andb].
  rewrite crc_ok_pair, Z.eqb_refl. reflexivity.
Qed.

Lemma open_port_fresh (w : world) :
  next_open w = None ->
  open_port w =
  (Ret (Some (length (handles w))), set_handles (pop_open w) (handles w ++ [true])).
Proof.
  intros H. unfold open_port, try_except, bind, Serial_new. now rewrite H.
Qed.

Lemma unknown_status_unclassified (s : Z) :
  s <> 0x75 -> s <> 0x1f -> s <> 0x21 -> s <> 0x20 ->
  fw_status_check [s; crc [s]] = None.
Proof.
  intros H1 H2 H3 H4. unfold fw_status_check, py_head, hd. cbn [length Nat.eqb].
  apply Z.eqb_neq in H1, H2, H3, H4. now rewrite H1, H2, H3, H4.
Qed.

(** C10.  The port opens, the device reports a sector size [ss > 0],
    confirms the request and the size and accepts [j] full chunks; to the
    next full chunk it answers a status [s] outside 0x75, 0x1f, 0x21, 0x20
    with a valid checksum.  Then the classifier gives [None], the transfer
    raises [TypeError], and [update] returns [False]: what it has sent is the
    sector-size command, one request, one size frame and the chunks up to
    that one, so no second attempt is made; nothing more is read; the port
    is closed. *)
Theorem update_unknown_status_no_retry (w : world) (ss s : Z) (j : nat)
    (rq : list read_outcome) :
  let L := length (fw_data w) in
  let B := Z.to_nat (ss * 1024) in
  let h := length (handles w) in
  fw_exists w = true -> next_open w = None -> writes_all w ->
  0 < ss -> Z.of_nat L < 2 ^ 32 -> (j < L / B)%nat ->
  s <> 0x75 -> s <> 0x1f -> s <> 0x21 -> s <> 0x20 ->
  read_q w = RBytes [ss; crc [ss]] :: RBytes ack :: RBytes ack ::
             repeat (RBytes ack) j ++ RBytes [s; crc [s]] :: rq ->
  fw_status_check [s; crc [s]] = None /\
  (exists w1,
     _get_sector_size (Some h) (snd (f_open (snd (open_port w)))) = (Ret (Some ss), w1) /\
     fst (_flash_fw (Some h) ss w1) = Raise TypeError) /\
  fst (update w) = Ret false /\
  sent (trace (snd (update w))) =
    sent (trace w) ++ [[0x03; 0xfc]; [0x01; 0xfe]; size_frame L] ++
    map (fun i => with_crc (chunk_at B (fw_data w) i)) (seq 0 (S j)) /\
  read_q (snd (update w)) = rq /\
  nth h (handles (snd (update w))) false = false.
Proof.
  intros L B h Hex Hop Hw Hss HL Hj H1 H2 H3 H4 Hr.
  pose proof (unknown_status_unclassified s H1 H2 H3 H4) as Hnone.
  split; [exact Hnone |].
  set (w0 := set_handles (pop_open w) (handles w ++ [true])).
  set (w0' := set_fw_pos w0 0).
  assert (Ho : port_open h w0').
  { unfold port_open, w0', w0, h. cbn. apply nth_middle. }
  assert (Hw0 : writes_all w0') by exact Hw.
  set (w1 := exchanged w0' [0x03; 0xfc] 2 [ss; crc [ss]]).
  assert (Hss1 : _get_sector_size (Some h) w0' = (Ret (Some ss), w1)).
  { apply get_sector_size_result; auto. unfold next_read. cbn. now rewrite Hr. }
  assert (E1 : evolves h w0' w1 [[0x03; 0xfc]]
                 (RBytes ack :: RBytes ack :: repeat (RBytes ack) j ++ RBytes [s; crc [s]] :: rq)).
  { pose proof (exchanged_evolves h w0' [0x03; 0xfc] 2 [ss; crc [ss]] Ho Hw0) as E.
    cbn [read_q w0' w0 set_fw_pos set_handles pop_open set_open_q] in E.
    rewrite Hr in E. exact E. }
  destruct (flash_fw_stops h ss w1 j [s; crc [s]] rq) as (w2 & Hrun & E2).
  { apply E1. } { apply E1. } { exact Hss. }
  { rewrite (ev_data _ _ _ _ _ E1). exact HL. }
  { rewrite (ev_data _ _ _ _ _ E1). exact Hj. }
  { reflexivity. } { rewrite crc_ok_pair. apply Z.eqb_refl. } { exact H1. }
  { apply E1. }
  rewrite Hnone in Hrun.
  assert (Hfo : f_open w0 = (Ret tt, w0')).
  { unfold f_open. cbn [fw_exists w0 set_handles pop_open set_open_q]. now rewrite Hex. }
  assert (Hup : update w = (Ret false, set_handles w2 (set_flag (handles w2) h false))).
  { unfold update. rewrite Hex. cbn [negb]. unfold bind at 1.
    rewrite (open_port_fresh w Hop). fold h w0.
    unfold try_finally, try_except. unfold bind at 1. rewrite Hfo.
    unfold bind at 1. rewrite Hss1.
    cbn [flash_loop]. unfold bind at 1. rewrite Hrun. reflexivity. }
  split.
  { exists w1. split.
    - rewrite (open_port_fresh w Hop). cbn [snd]. fold w0. rewrite Hfo. exact Hss1.
    - now rewrite Hrun. }
  rewrite Hup. cbn [fst snd trace read_q handles set_handles].
  pose proof (evolves_trans h w0' w1 w2 _ _ _ _ E1 E2) as E.
  refine (conj eq_refl (conj _ (conj _ _))).
  - rewrite (ev_sent _ _ _ _ _ E). rewrite (ev_data _ _ _ _ _ E1). reflexivity.
  - apply E.
  - apply nth_set_flag_same. rewrite (ev_handles _ _ _ _ _ E).
    cbn. rewrite length_app. simpl. unfold h. lia.
Qed.

Lemma update_unknown_status_no_retry_witness :
  fw_exists w_unknown = true /\
  next_open w_unknown = None /\
  writes_all w_unknown /\
  0 < 1 /\
  Z.of_nat (length (fw_data w_unknown)) < 2 ^ 32 /\
  (1 < length (fw_data w_unknown) / Z.to_nat (1 * 1024))%nat /\
  0x33 <> 0x75 /\ 0x33 <> 0x1f /\ 0x33 <> 0x21 /\ 0x33 <> 0x20 /\
  read_q w_unknown =
    RBytes [1; crc [1]] :: RBytes ack :: RBytes ack ::
    repeat (RBytes ack) 1 ++ RBytes [0x33; crc [0x33]] :: [RBytes ack] /\
  fst (update w_unknown) = Ret false /\
  read_q (snd (update w_unknown)) = [RBytes ack] /\
  handles (snd (update w_unknown)) = [false].
Proof.
  assert (H1 : fw_exists w_unknown = true) by reflexivity.
  assert (H2 : next_open w_unknown = None) by reflexivity.
  assert (H3 : writes_all w_unknown) by constructor.
  assert (H4 : 0 < 1) by lia.
  assert (H5 : Z.of_nat (length (fw_data w_unknown)) < 2 ^ 32) by (vm_compute; reflexivity).
  assert (H6 : (1 < length (fw_data w_unknown) / Z.to_nat (1 * 1024))%nat)
    by (vm_compute; lia).
  assert (H7 : 0x33 <> 0x75) by lia.
  assert (H8 : 0x33 <> 0x1f) by lia.
  assert (H9 : 0x33 <> 0x21) by lia.
  assert (H10 : 0x33 <> 0x20) by lia.
  assert (H11 : read_q w_unknown =
    RBytes [1; crc [1]] :: RBytes ack :: RBytes ack ::
    repeat (RBytes ack) 1 ++ RBytes [0x33; crc [0x33]] :: [RBytes ack]) by reflexivity.
  refine (conj H1 (conj H2 (conj H3 (conj H4 (conj H5 (conj H6 (conj H7 (conj H8
         (conj H9 (conj H10 (conj H11 _))))))))))).
  destruct (update_unknown_status_no_retry w_unknown 1 0x33 1 [RBytes ack]
              H1 H2 H3 H4 H5 H6 H7 H8 H9 H10 H11) as (_ & _ & Hres & _ & Hrq & _).
  refine (conj Hres (conj Hrq _)). reflexivity.
Defined.

(** ** Closing the port *)

Section KeepsOthers.
Variable h : nat.

Lemma ko_ret {A} (a : A) : keeps_others h (ret a).
Proof. intros w. split; reflexivity. Qed.

Lemma ko_raise {A} (e : exn) : keeps_others h (@raise A e).
Proof. intros w. split; reflexivity. Qed.

Lemma ko_bind {A C} (m : M A) (k : A -> M C) :
  keeps_others h m -> (forall a, keeps_others h (k a)) -> keeps_others h (bind m k).
Proof.
  intros Hm Hk w. unfold bind. specialize (Hm w).
  destruct (m w) as [[a | e] w1]; cbn [snd] in *; [| exact Hm].
  specialize (Hk a w1). destruct Hm as [Hl Hn], Hk as [Hl' Hn']. split.
  - congruence.
  - intros i Hi. rewrite Hn', Hn; auto.
Qed.

Lemma ko_try_except {A} (m : M A) hd (hdl : exn -> M A) :
  keeps_others h m -> (forall e, keeps_others h (hdl e)) ->
  keeps_others h (try_except m hd hdl).
Proof.
  intros Hm Hk w. unfold try_except. specialize (Hm w).
  destruct (m w) as [[a | e] w1]; cbn [snd] in *; [exact Hm |].
  destruct (hd e); [| exact Hm].
  specialize (Hk e w1). destruct Hm as [Hl Hn], Hk as [Hl' Hn']. split.
  - congruence.
  - intros i Hi. rewrite Hn', Hn; auto.
Qed.

Lemma ko_world {A} (m : M A) :
  (forall w, handles (snd (m w)) = handles w) -> keeps_others h m.
Proof. intros H w. rewrite H. split; reflexivity. Qed.

Lemma ko_is_open : keeps_others h (ser_is_open (Some h)).
Proof. apply ko_world. reflexivity. Qed.

Lemma ko_open : keeps_others h (ser_open (Some h)).
Proof.
  intros w. unfold ser_open.
  destruct (nth h (handles w) false); [split; reflexivity |].
  destruct (next_open w); cbn; [split; reflexivity |].
  split; [apply set_flag_length | intros; now apply nth_set_flag_other].
Qed.

Lemma ko_close : keeps_others h (ser_close (Some h)).
Proof.
  intros w. cbn. split; [apply set_flag_length | intros; now apply nth_set_flag_other].
Qed.

Lemma ko_write (d : bytes) : keeps_others h (ser_write (Some h) d).
Proof.
  apply ko_world. intros w. unfold ser_write.
  destruct (negb _); [reflexivity |]. now destruct (next_write w).
Qed.

Lemma ko_read (n : nat) : keeps_others h (ser_read (Some h) n).
Proof.
  apply ko_world. intros w. unfold ser_read.
  destruct (negb _); [reflexivity |]. now destruct (next_read w).
Qed.

Lemma ko_f_size : keeps_others h f_size.
Proof. apply ko_world. reflexivity. Qed.

Lemma ko_f_read (n : nat) : keeps_others h (f_read n).
Proof. apply ko_world. reflexivity. Qed.

Lemma ko_f_open : keeps_others h f_open.
Proof. apply ko_world. intros w. unfold f_open. now destruct (fw_exists w). Qed.

Ltac ko_with known :=
  repeat first
    [ known
    | apply ko_ret | apply ko_raise | apply ko_is_open | apply ko_open
    | apply ko_close | apply ko_write | apply ko_read | apply ko_f_size
    | apply ko_f_read | apply ko_f_open
    | apply ko_bind; [| intros ?]
    | apply ko_try_except; [| intros ?]
    | match goal with
      | |- keeps_others _ (if ?c then _ else _) => destruct c
      | |- keeps_others _ (match ?x with _ => _ end) => destruct x
      end ].

Ltac ko := ko_with fail.

Lemma ko_ensure_open : keeps_others h (ensure_open (Some h)).
Proof. unfold ensure_open. ko. Qed.

Lemma ko_handshake : keeps_others h (_handshake (Some h)).
Proof. unfold _handshake. ko_with ltac:(apply ko_ensure_open). Qed.

Lemma ko_get_version : keeps_others h (_get_version (Some h)).
Proof. unfold _get_version. ko_with ltac:(apply ko_ensure_open). Qed.

Lemma ko_get_sector_size : keeps_others h (_get_sector_size (Some h)).
Proof. unfold _get_sector_size. ko_with ltac:(apply ko_ensure_open). Qed.

Lemma ko_app_start : keeps_others h (_app_start (Some h)).
Proof. unfold _app_start. ko_with ltac:(apply ko_ensure_open). Qed.

Lemma ko_chunk_loop (n B : nat) : forall buf x,
  keeps_others h (chunk_loop n (Some h) B buf x).
Proof.
  induction n as [| n IH]; intros buf x; cbn [chunk_loop]; ko_with ltac:(apply IH).
Qed.

Lemma ko_final_chunk (rem : nat) (buf : bytes) (x : option Z) :
  keeps_others h (final_chunk (Some h) rem buf x).
Proof. unfold final_chunk. ko. Qed.

Lemma ko_flash_chunks (size B : nat) (buf : bytes) :
  keeps_others h (flash_chunks (Some h) size B buf).
Proof.
  unfold flash_chunks.
  ko_with ltac:(first [apply ko_chunk_loop | apply ko_final_chunk]).
Qed.

Lemma ko_flash_fw (ss : Z) : keeps_others h (_flash_fw (Some h) ss).
Proof.
  unfold _flash_fw.
  ko_with ltac:(first [apply ko_ensure_open | apply ko_flash_chunks]).
Qed.

Lemma ko_app_start_loop (n : nat) : keeps_others h (app_start_loop n (Some h)).
Proof.
  induction n as [| n IH]; cbn [app_start_loop];
    ko_with ltac:(first [apply ko_app_start | apply IH]).
Qed.

Lemma ko_flash_loop (n : nat) (ss : Z) : keeps_others h (flash_loop n (Some h) ss).
Proof.
  induction n as [| n IH]; cbn [flash_loop];
    ko_with ltac:(first [apply ko_flash_fw | apply IH]).
Qed.
End KeepsOthers.

Lemma open_port_handles (w : world) :
  (exists w0, open_port w = (Ret (Some (length (handles w))), w0) /\
              handles w0 = handles w ++ [true]) \/
  (exists r w0, open_port w = (r, w0) /\ handles w0 = handles w /\
                (r = Ret None \/ exists e, r = Raise e)).
Proof.
  unfold open_port, try_except, bind, Serial_new, ret.
  destruct (next_open w) as [e |].
  - right. destruct (is_serial e); eexists; eexists; (split; [reflexivity |]);
      (split; [reflexivity |]); eauto.
  - left. eexists. split; reflexivity.
Qed.

(** [try: body  finally: ser.close()] on the Serial object made last leaves
    nothing open if nothing else was open. *)
Lemma finally_closes {A} (m : M A) (w w0 : world) :
  all_closed w -> handles w0 = handles w ++ [true] ->
  keeps_others (length (handles w)) m ->
  all_closed (snd (try_finally m (ser_close (Some (length (handles w)))) w0)).
Proof.
  intros Hc Hh Hm. unfold try_finally. specialize (Hm w0).
  destruct (m w0) as [r w1]. cbn [snd] in Hm. destruct Hm as [Hl Hn].
  unfold all_closed, ser_close. cbn [snd handles set_handles].
  intros i. destruct (Nat.eq_dec i (length (handles w))) as [-> | Hi].
  - apply nth_set_flag_same. rewrite Hl, Hh, length_app. simpl. lia.
  - rewrite nth_set_flag_other by exact Hi. rewrite Hn by exact Hi. rewrite Hh.
    destruct (Nat.lt_ge_cases i (length (handles w))) as [Hlt | Hge].
    + rewrite app_nth1 by exact Hlt. apply Hc.
    + apply nth_overflow. rewrite length_app. simpl. lia.
Qed.

Ltac closes_op lemma :=
  intros w Hc;
  unfold bind at 1;
  destruct (open_port_handles w) as [(w0 & -> & Hh) | (r & w0 & -> & Hh & [-> | (e & ->)])];
  [ apply (finally_closes _ w w0 Hc Hh); lemma
  | intros i; cbn; rewrite Hh; apply Hc
  | intros i; cbn; rewrite Hh; apply Hc ].

Lemma handshake_closes : forall w, all_closed w -> all_closed (snd (handshake w)).
Proof.
  unfold handshake.
  closes_op ltac:(apply ko_try_except; [apply ko_bind; [apply ko_handshake |] |];
                  intros []; apply ko_ret).
Qed.

Lemma get_version_closes : forall w, all_closed w -> all_closed (snd (get_version w)).
Proof.
  unfold get_version.
  closes_op ltac:(apply ko_try_except; [apply ko_bind; [apply ko_get_version |] |];
                  [intros [] | intros ?]; apply ko_ret).
Qed.

Lemma app_start_closes : forall w, all_closed w -> all_closed (snd (app_start w)).
Proof.
  unfold app_start.
  closes_op ltac:(apply ko_try_except; [apply ko_bind; [apply ko_app_start_loop |] |];
                  intros ?; apply ko_ret).
Qed.

Lemma update_closes : forall w, all_closed w -> all_closed (snd (update w)).
Proof.
  unfold update. intros w. destruct (negb (fw_exists w)); [auto |]. revert w.
  closes_op ltac:(apply ko_try_except;
                  [apply ko_bind; [apply ko_f_open | intros _];
                   apply ko_bind; [apply ko_get_sector_size | intros []];
                   [apply ko_flash_loop | apply ko_ret]
                  | intros ?; apply ko_ret]).
Qed.

(** C9, the code at the failing input.  The device answers the version
    query of [request_bootloader], which returns [True] and leaves the Serial
    object it opened open.  The port also stays open when the bootloader is
    entered after the wake sequence and when the handshake after it fails.
    [get_version] on the same answer closes the port. *)
Theorem request_bootloader_leaves_port_open :
  request_bootloader false false (fresh [] [RBytes some_version]) =
    (Ret true, snd (request_bootloader false false (fresh [] [RBytes some_version]))) /\
  handles (snd (request_bootloader false false (fresh [] [RBytes some_version]))) = [true] /\
  ~ all_closed (snd (request_bootloader false false (fresh [] [RBytes some_version]))) /\
  handles (snd (request_bootloader false false (fresh [] [RBytes []; RBytes [0x75]]))) =
    [false; false; true] /\
  handles (snd (request_bootloader false false (fresh [] [RBytes []; RBytes []]))) =
    [false; false; true] /\
  handles (snd (get_version (fresh [] [RBytes some_version]))) = [false].
Proof.
  repeat split.
  intros H. specialize (H 0%nat). discriminate H.
Qed.

(** * Further properties *)

(** ** The checksum as an error check *)

Lemma lxor_255_complement (m : Z) : 0 <= m < 256 -> Z.lxor m 0xff = 255 - m.
Proof.
  intros Hm.
  assert (H : forallb (fun k => Z.lxor (Z.of_nat k) 0xff =? 255 - Z.of_nat k) (seq 0 256) = true)
    by (vm_compute; reflexivity).
  rewrite forallb_forall in H.
  specialize (H (Z.to_nat m)).
  rewrite Z2Nat.id in H by lia. apply Z.eqb_eq, H, in_seq. lia.
Qed.

Lemma crc_complement (b : bytes) : crc b = 255 - sum_bytes b mod 256.
Proof.
  rewrite crc_sum. apply lxor_255_complement. apply Z.mod_pos_bound. lia.
Qed.

Lemma sum_bytes_app (a b : bytes) : sum_bytes (a ++ b) = sum_bytes a + sum_bytes b.
Proof. induction a as [| x a IH]; simpl; [reflexivity | rewrite IH; lia]. Qed.

(** X1.  A frame whose last byte is a byte value passes the response check
    r[-1] == crc(r[:-1]) exactly when the sum of all its bytes, the last one
    included, is 255 modulo 256. *)
Theorem crc_ok_iff_sum (p : bytes) (c : Z) :
  0 <= c < 256 ->
  (crc_ok (p ++ [c]) = true <-> sum_bytes (p ++ [c]) mod 256 = 255).
Proof.
  intros Hc. unfold crc_ok. rewrite py_init_snoc, py_last_snoc, crc_complement.
  rewrite sum_bytes_app. cbn [sum_bytes fold_right]. rewrite Z.add_0_r.
  pose proof (Z.mod_pos_bound (sum_bytes p) 256 ltac:(lia)) as Hm.
  rewrite Z.eqb_eq. rewrite <- (Z.add_mod_idemp_l (sum_bytes p)) by lia.
  split; intros H.
  - subst c. replace (sum_bytes p mod 256 + (255 - sum_bytes p mod 256)) with 255 by lia.
    reflexivity.
  - destruct (Z.eq_dec (sum_bytes p mod 256 + c) 255) as [E | E]; [lia |].
    assert (Hlt : sum_bytes p mod 256 + c < 255 \/ 256 <= sum_bytes p mod 256 + c) by lia.
    destruct Hlt as [Hlt | Hge].
    + rewrite Z.mod_small in H by lia. lia.
    + replace (sum_bytes p mod 256 + c) with ((sum_bytes p mod 256 + c - 256) + 1 * 256) in H by lia.
      rewrite Z.mod_add in H by lia. rewrite Z.mod_small in H by lia. lia.
Qed.

Lemma crc_ok_iff_sum_witness :
  0 <= 0x8a < 256 /\
  (crc_ok ([0x75] ++ [0x8a]) = true <-> sum_bytes ([0x75] ++ [0x8a]) mod 256 = 255).
Proof.
  assert (H : 0 <= 0x8a < 256) by lia.
  exact (conj H (crc_ok_iff_sum [0x75] 0x8a H)).
Defined.

(** X2.  If one byte of a payload is replaced by a different byte value and
    the checksum byte is left as computed for the original payload, the
    response check fails: the checksum detects every error of a single byte. *)
Theorem crc_detects_one_wrong_byte (a b : bytes) (x y : Z) :
  0 <= x < 256 -> 0 <= y < 256 -> x <> y ->
  crc_ok ((a ++ y :: b) ++ [crc (a ++ x :: b)]) = false.
Proof.
  intros Hx Hy Hxy. unfold crc_ok. rewrite py_init_snoc, py_last_snoc.
  apply Z.eqb_neq. rewrite !crc_complement, !sum_bytes_app. cbn [sum_bytes fold_right].
  fold (sum_bytes b). intros H.
  assert (E : (sum_bytes a + (x + sum_bytes b)) mod 256 = (sum_bytes a + (y + sum_bytes b)) mod 256) by lia.
  set (s := sum_bytes a + sum_bytes b) in *.
  replace (sum_bytes a + (x + sum_bytes b)) with (s + x) in E by (unfold s; lia).
  replace (sum_bytes a + (y + sum_bytes b)) with (s + y) in E by (unfold s; lia).
  assert (D : (x - y) mod 256 = 0).
  { replace (x - y) with ((s + x) - (s + y)) by lia.
    rewrite Zminus_mod, E, Z.sub_diag. reflexivity. }
  apply Z.mod_divide in D; [| lia]. destruct D as [k D]. lia.
Qed.

Lemma crc_detects_one_wrong_byte_witness :
  (0 <= 3 < 256 /\ 0 <= 7 < 256 /\ 3 <> 7) /\
  crc_ok (([1; 2] ++ 7 :: [4]) ++ [crc ([1; 2] ++ 3 :: [4])]) = false.
Proof.
  assert (H1 : 0 <= 3 < 256) by lia.
  assert (H2 : 0 <= 7 < 256) by lia.
  assert (H3 : 3 <> 7) by lia.
  exact (conj (conj H1 (conj H2 H3)) (crc_detects_one_wrong_byte [1; 2] [4] 3 7 H1 H2 H3)).
Defined.

(** X3.  The checksum does not depend on the order of the bytes: any
    rearrangement of a byte sequence has the same checksum, so a frame with
    bytes of its payload swapped still passes the check. *)
Theorem crc_blind_to_order (a b : bytes) : Permutation a b -> crc a = crc b.
Proof.
  intros H. rewrite !crc_sum. do 2 f_equal.
  induction H; simpl; lia.
Qed.

Lemma crc_blind_to_order_witness :
  Permutation [0x01; 0x02; 0x03] [0x02; 0x01; 0x03] /\
  crc [0x01; 0x02; 0x03] = crc [0x02; 0x01; 0x03].
Proof.
  assert (H : Permutation [0x01; 0x02; 0x03] [0x02; 0x01; 0x03]) by apply perm_swap.
  exact (conj H (crc_blind_to_order _ _ H)).
Defined.

(** ** The stages, whatever the port does *)

Lemma min_2_nonzero (n : nat) : (Nat.min n 2 =? 0)%nat = false -> (0 < Nat.min n 2)%nat.
Proof. destruct n; simpl; [discriminate | lia]. Qed.

Ltac two_bytes b :=
  destruct (firstn 2 b) as [| ?x [| ?y [| ?z ?t]]];
  cbn [length] in *;
  repeat match goal with
         | H : S _ = S _ |- _ => injection H as H
         | H : O = S _ |- _ => discriminate H
         | H : S _ = O |- _ => discriminate H
         end;
  subst; cbn [Nat.eqb andb py_head hd] in *; rewrite ?crc_ok_pair in *.

(** X4.  The sector-size stage returns a sector size s if and only if the
    traffic of the call is the request 03 fc written and then one read of
    two bytes, s followed by the checksum of s. Every other course of the
    call (write of nothing, timeout, short read, wrong checksum, port error,
    no port) gives no sector size. *)
Theorem get_sector_size_iff (ser : serial) (w : world) (s : Z) :
  let w' := snd (_get_sector_size ser w) in
  fst (_get_sector_size ser w) = Ret (Some s) <->
  exists n, added w w' = [EvWrite [0x03; 0xfc] n; EvRead 2 [s; crc [s]]].
Proof.
  unfold _get_sector_size. unfold_stage.
  run_stage; simp_added; finish_cases;
    (split; [intros Heq; try discriminate | intros [k Heq]; try discriminate]).
  all: match goal with b : bytes |- _ => two_bytes b end; try discriminate.
  all: try (injection Heq as <-; finish_cases; subst; eexists; reflexivity).
  all: try (injection Heq as _ _ _; discriminate).
  all: try (injection Heq as _ -> ->; try reflexivity; rewrite Z.eqb_refl in *; discriminate).

Qed.

Lemma decode_latin_length (p : bytes) : String.length (decode_latin p) = length p.
Proof.
  unfold decode_latin. induction p as [| x p IH]; simpl; [reflexivity | now rewrite IH].
Qed.

Lemma get_version_run (h : nat) (w : world) (b : bytes) :
  port_open h w -> writes_some (next_write w) = true -> next_read w = RBytes b ->
  fst (_get_version (Some h) w) =
  Ret (if (length (firstn 26 b) =? 26)%nat && (nth 25 (firstn 26 b) 0 =? crc (py_init (firstn 26 b)))
       then Some (decode_latin (py_init (firstn 26 b)))
       else None).
Proof.
  intros Hopen Hw Hr.
  unfold _get_version, try_except, bind.
  rewrite (ensure_open_open _ _ Hopen).
  destruct (ser_write_some h [0x00; 0xff] w Hopen Hw) as (k & Hk & ->); [discriminate |].
  rewrite Hk.
  rewrite (ser_read_bytes h 26 b); [| exact Hopen | exact Hr].
  destruct (firstn 26 b) as [| x t] eqn:E; [reflexivity |].
  cbn [length Nat.ltb Nat.leb].
  match goal with |- context [if ?c then _ else _] => destruct c end; reflexivity.
Qed.

(** X5.  On an open port with the request written, the version stage returns
    None when fewer than 26 bytes arrive or when byte 25 is not the checksum
    of the first 25; otherwise it returns the first 25 bytes decoded as
    Latin-1. A version it returns always has exactly 25 characters. *)
Theorem get_version_needs_26_valid_bytes (h : nat) (w : world) (b : bytes) :
  port_open h w ->
  writes_some (next_write w) = true ->
  next_read w = RBytes b ->
  let res := fst (_get_version (Some h) w) in
  ((length b < 26)%nat -> res = Ret None) /\
  ((26 <= length b)%nat -> nth 25 b 0 <> crc (firstn 25 b) -> res = Ret None) /\
  ((26 <= length b)%nat -> nth 25 b 0 = crc (firstn 25 b) ->
   res = Ret (Some (decode_latin (firstn 25 b)))) /\
  (forall t, res = Ret (Some t) -> String.length t = 25%nat).
Proof.
  intros Hopen Hw Hr. cbv zeta. rewrite (get_version_run h w b Hopen Hw Hr).
  destruct (Nat.lt_ge_cases (length b) 26) as [Hlt | Hge].
  - assert (E : (length (firstn 26 b) =? 26)%nat = false).
    { apply Nat.eqb_neq. rewrite length_firstn. lia. }
    rewrite E. cbn [andb]. repeat split; intros; try lia; try reflexivity; discriminate.
  - assert (E : (length (firstn 26 b) =? 26)%nat = true).
    { apply Nat.eqb_eq. rewrite length_firstn. lia. }
    assert (Hn : nth 25 (firstn 26 b) 0 = nth 25 b 0) by (apply nth_firstn).
    assert (Hi : py_init (firstn 26 b) = firstn 25 b)
      by (unfold py_init; apply removelast_firstn; lia).
    rewrite E, Hn, Hi. cbn [andb].
    repeat split; intros; try lia.
    + apply Z.eqb_neq in H0. now rewrite H0.
    + rewrite H0, Z.eqb_refl. reflexivity.
    + destruct (nth 25 b 0 =? crc (firstn 25 b)); [| discriminate].
      assert (Ht : t = decode_latin (firstn 25 b)) by congruence.
      rewrite Ht, decode_latin_length, length_firstn. lia.
Qed.

Lemma get_version_needs_26_valid_bytes_witness :
  fst (_get_version (Some 0%nat) (opened [] [RBytes some_version])) =
    Ret (Some (decode_latin (firstn 25 some_version))) /\
  fst (_get_version (Some 0%nat) (opened [] [RBytes (firstn 25 some_version)])) = Ret None.
Proof.
  split.
  - destruct (get_version_needs_26_valid_bytes 0 (opened [] [RBytes some_version]) some_version)
      as (_ & _ & H & _); [reflexivity | reflexivity | reflexivity |].
    apply H; [vm_compute; lia | vm_compute; reflexivity].
  - destruct (get_version_needs_26_valid_bytes 0
                (opened [] [RBytes (firstn 25 some_version)]) (firstn 25 some_version))
      as (H & _); [reflexivity | reflexivity | reflexivity |].
    apply H. vm_compute. lia.
Defined.

Lemma try_except_no_escape {A} (m : M A) (v : A) (w : world) (e : exn) :
  fst (try_except m is_serial (fun _ => ret v) w) = Raise e -> is_serial e = false.
Proof.
  unfold try_except, ret. destruct (m w) as [[a | e'] w']; cbn [fst]; [discriminate |].
  destruct (is_serial e') eqn:E; cbn [fst]; [discriminate |]. intros H. injection H as <-. exact E.
Qed.

(** X6.  No stage lets an exception of the serial library out: whatever
    exception a call of _handshake, _get_version, _get_sector_size,
    _app_start or _flash_fw ends with, it is neither SerialException nor
    SerialTimeoutException. *)
Theorem serial_exceptions_stay_inside (ser : serial) (ss : Z) (w : world) (e : exn) :
  fst (_handshake ser w) = Raise e \/
  fst (_get_version ser w) = Raise e \/
  fst (_get_sector_size ser w) = Raise e \/
  fst (_app_start ser w) = Raise e \/
  fst (_flash_fw ser ss w) = Raise e ->
  is_serial e = false.
Proof.
  intros [H | [H | [H | [H | H]]]]; now apply try_except_no_escape in H.
Qed.

Lemma serial_exceptions_stay_inside_witness :
  fst (_handshake None (fresh [] [])) = Raise AttributeError /\
  is_serial AttributeError = false.
Proof.
  assert (H : fst (_handshake None (fresh [] [])) = Raise AttributeError) by reflexivity.
  exact (conj H (serial_exceptions_stay_inside None 1 (fresh [] []) AttributeError (or_introl H))).
Defined.





(** X8.  If no Serial object is open before, none is open after handshake,
    get_version, app_start or update, whether the operation succeeded,
    failed or caught an exception. *)
Theorem operations_leave_port_closed (w : world) :
  all_closed w ->
  all_closed (snd (handshake w)) /\
  all_closed (snd (get_version w)) /\
  all_closed (snd (app_start w)) /\
  all_closed (snd (update w)).
Proof.
  intros H. repeat split.
  - now apply handshake_closes.
  - now apply get_version_closes.
  - now apply app_start_closes.
  - now apply update_closes.
Qed.

Lemma operations_leave_port_closed_witness :
  all_closed w_update_ok /\
  all_closed (snd (handshake w_update_ok)) /\
  all_closed (snd (get_version w_update_ok)) /\
  all_closed (snd (app_start w_update_ok)) /\
  all_closed (snd (update w_update_ok)).
Proof.
  assert (H : all_closed w_update_ok) by (intros i; destruct i; reflexivity).
  exact (conj H (operations_leave_port_closed w_update_ok H)).
Defined.

(** X9.  If opening the port fails with an exception of the serial library,
    handshake, get_version and update return False and app_start returns
    None, and nothing is written to or read from the port; update with a
    missing firmware file returns False without trying the port. *)
Theorem port_that_cannot_be_opened (w : world) (e : exn) :
  next_open w = Some e -> is_serial e = true ->
  handshake w = (Ret false, pop_open w) /\
  get_version w = (Ret false, pop_open w) /\
  app_start w = (Ret None, pop_open w) /\
  update w = (Ret false, if fw_exists w then pop_open w else w).
Proof.
  intros Hn He.
  assert (Ho : open_port w = (Ret None, pop_open w)).
  { unfold open_port, try_except, bind, Serial_new. now rewrite Hn, He. }
  unfold handshake, get_version, app_start, update.
  destruct (fw_exists w); unfold bind; rewrite Ho; repeat split.
Qed.

Lemma port_that_cannot_be_opened_witness :
  next_open unplugged = Some SerialException /\
  handshake unplugged = (Ret false, pop_open unplugged) /\
  get_version unplugged = (Ret false, pop_open unplugged) /\
  app_start unplugged = (Ret None, pop_open unplugged) /\
  update unplugged = (Ret false, pop_open unplugged).
Proof.
  assert (H : next_open unplugged = Some SerialException) by reflexivity.
  exact (conj H (port_that_cannot_be_opened unplugged SerialException H eq_refl)).
Defined.

(** ** The transfer, whatever the device answers *)

(** One turn of the loop up to the point where the chunk has been written. *)
Lemma chunk_step_written (h B n k : nat) (buf : bytes) (x : option Z) (w : world) :
  port_open h w -> writes_all w -> length buf = S B ->
  fw_pos w = (k * B)%nat ->
  let c := with_crc (chunk_at B (fw_data w) k) in
  chunk_loop (S n) (Some h) B buf x w =
  (r <- ser_read (Some h) 2 ;;
   if (length r =? 2)%nat && crc_ok r
   then match fw_status_check r with
        | None => raise TypeError
        | Some x' =>
            if x' >? 3 then chunk_loop n (Some h) B c (Some x') else ret (LReturn 0)
        end
   else ret (LReturn 0))
    (log (pop_write (set_fw_pos w (fw_pos w + length (chunk_at B (fw_data w) k))))
       (EvWrite c (length c))).
Proof.
  intros Ho Hw Hb Hp. cbv zeta.
  cbn [chunk_loop]. unfold bind at 1. unfold f_read. rewrite Hp.
  fold (chunk_at B (fw_data w) k).
  rewrite (buffer_full_chunk B buf _ Hb).
  unfold bind at 1.
  rewrite ser_write_all; [| exact Ho | now apply writes_all_next].
  assert (Hl : (length (with_crc (chunk_at B (fw_data w) k)) =? 0)%nat = false).
  { unfold with_crc. rewrite length_app. simpl. apply Nat.eqb_neq. lia. }
  rewrite Hl. reflexivity.
Qed.

Lemma sent_log_write (w : world) (d : bytes) :
  sent (trace (log w (EvWrite d (length d)))) = sent (trace w) ++ [d].
Proof.
  cbn [trace log]. rewrite sent_app. unfold sent at 2. cbn [flat_map app].
  now rewrite firstn_all.
Qed.

Lemma sent_log_read (w : world) (n : nat) (b : bytes) :
  sent (trace (log w (EvRead n b))) = sent (trace w).
Proof.
  cbn [trace log]. rewrite sent_app. unfold sent at 2. cbn [flat_map].
  now rewrite app_nil_r.
Qed.

Lemma sent_log_read_fail (w : world) (n : nat) (e : exn) :
  sent (trace (log w (EvReadFail n e))) = sent (trace w).
Proof.
  cbn [trace log]. rewrite sent_app. unfold sent at 2. cbn [flat_map].
  now rewrite app_nil_r.
Qed.

Lemma chunk_loop_any_answers (h B : nat) : forall n k buf x w,
  port_open h w -> writes_all w -> length buf = S B ->
  fw_pos w = (k * B)%nat -> ((k + n) * B <= length (fw_data w))%nat ->
  exists m, (m <= n)%nat /\
    sent (trace (snd (chunk_loop n (Some h) B buf x w))) =
      sent (trace w) ++ map (fun i => with_crc (chunk_at B (fw_data w) i)) (seq k m) /\
    fw_data (snd (chunk_loop n (Some h) B buf x w)) = fw_data w /\
    (forall buf' x', fst (chunk_loop n (Some h) B buf x w) = Ret (LDone buf' x') ->
       m = n /\ port_open h (snd (chunk_loop n (Some h) B buf x w)) /\
       writes_all (snd (chunk_loop n (Some h) B buf x w)) /\
       length buf' = S B /\
       fw_pos (snd (chunk_loop n (Some h) B buf x w)) = ((k + n) * B)%nat).
Proof.
  induction n as [| n IH]; intros k buf x w Ho Hw Hb Hp Hlen.
  - exists 0%nat. cbn. rewrite app_nil_r. repeat split; auto.
    + injection H as <- _. exact Hb.
    + rewrite Hp. f_equal. lia.
  - rewrite (chunk_step_written h B n k buf x w Ho Hw Hb Hp).
    assert (Hc : length (chunk_at B (fw_data w) k) = B)
      by (apply chunk_at_length; simpl; lia).
    set (c := with_crc (chunk_at B (fw_data w) k)).
    set (w1 := log (pop_write (set_fw_pos w (fw_pos w + length (chunk_at B (fw_data w) k))))
                 (EvWrite c (length c))).
    assert (Hs1 : sent (trace w1) = sent (trace w) ++ [c])
      by (unfold w1; rewrite sent_log_write; reflexivity).
    assert (Hone : forall (res : result loop_exit) (w2 : world),
               sent (trace w2) = sent (trace w1) -> fw_data w2 = fw_data w ->
               (forall buf' x', res <> Ret (LDone buf' x')) ->
               exists m, (m <= S n)%nat /\
                 sent (trace (snd (res, w2))) =
                   sent (trace w) ++ map (fun i => with_crc (chunk_at B (fw_data w) i)) (seq k m) /\
                 fw_data (snd (res, w2)) = fw_data w /\
                 (forall buf' x', fst (res, w2) = Ret (LDone buf' x') ->
                    m = S n /\ port_open h (snd (res, w2)) /\ writes_all (snd (res, w2)) /\
                    length buf' = S B /\ fw_pos (snd (res, w2)) = ((k + S n) * B)%nat)).
    { intros res w2 H1 H2 H3. exists 1%nat. cbn [fst snd seq map].
      split; [lia |]. split; [now rewrite H1, Hs1 |]. split; [exact H2 |].
      intros buf' x' H. now apply H3 in H. }
    unfold bind, ser_read.
    replace (nth h (handles w1) false) with true by (symmetry; exact Ho).
    cbn [negb].
    destruct (next_read w1) as [b | e].
    2:{ apply Hone; [rewrite sent_log_read_fail; reflexivity | reflexivity | discriminate]. }
    destruct ((length (firstn 2 b) =? 2)%nat && crc_ok (firstn 2 b)).
    2:{ apply Hone; [rewrite sent_log_read; reflexivity | reflexivity | discriminate]. }
    destruct (fw_status_check (firstn 2 b)) as [x' |].
    2:{ apply Hone; [rewrite sent_log_read; reflexivity | reflexivity | discriminate]. }
    destruct (x' >? 3).
    2:{ apply Hone; [rewrite sent_log_read; reflexivity | reflexivity | discriminate]. }
    set (w2 := log (pop_read w1) (EvRead 2 (firstn 2 b))).
    destruct (IH (S k) c (Some x') w2) as (m & Hm & Hs & Hd & Hdone).
    + exact Ho.
    + now apply writes_all_pop.
    + unfold c, with_crc. rewrite length_app, Hc. simpl. lia.
    + cbn. rewrite Hp, Hc. lia.
    + cbn [fw_data w2 w1 log pop_read pop_write set_read_q set_write_q set_fw_pos]. lia.
    + exists (S m). split; [lia |]. split; [| split].
      * rewrite Hs. unfold w2. rewrite sent_log_read.
        change (sent (trace (pop_read w1))) with (sent (trace w1)).
        rewrite Hs1. cbn [seq map].
        rewrite <- app_assoc. reflexivity.
      * rewrite Hd. reflexivity.
      * intros buf' x'' H. destruct (Hdone buf' x'' H) as (-> & H1 & H2 & H3 & H4).
        refine (conj eq_refl (conj H1 (conj H2 (conj H3 _)))).
        rewrite H4. f_equal. lia.
Qed.

Lemma map_seq_prefix {A} (f : nat -> A) (m q : nat) (rest : list A) :
  (m <= q)%nat ->
  exists more, map f (seq 0 m) ++ more = map f (seq 0 q) ++ rest.
Proof.
  intros H. exists (map f (seq m (q - m)) ++ rest).
  rewrite app_assoc, <- map_app, <- seq_app. do 3 f_equal. lia.
Qed.

Lemma flash_chunks_prefix (h B : nat) (w : world) :
  port_open h w -> writes_all w -> fw_pos w = 0%nat ->
  let L := length (fw_data w) in
  let plan := map (fun i => with_crc (chunk_at B (fw_data w) i)) (seq 0 (L / B)) ++
              (if (L mod B =? 0)%nat then [] else [with_crc (skipn (L / B * B) (fw_data w))]) in
  exists out more,
    sent (trace (snd (flash_chunks (Some h) L B (bytearray (B + 1)) w))) =
      sent (trace w) ++ out /\
    out ++ more = plan.
Proof.
  intros Ho Hw Hp L plan. unfold flash_chunks.
  destruct (B =? 0)%nat eqn:EB.
  { exists [], plan. cbn. now rewrite app_nil_r. }
  apply Nat.eqb_neq in EB.
  destruct (div_mod_chunks L B ltac:(lia)) as [Hdm Hrem].
  destruct (chunk_loop_any_answers h B (L / B) 0 (bytearray (B + 1)) None w Ho Hw)
    as (m & Hm & Hs & Hd & Hdone).
  { rewrite bytearray_length. lia. } { rewrite Hp. reflexivity. } { fold L. simpl. lia. }
  unfold bind.
  destruct (chunk_loop (L / B) (Some h) B (bytearray (B + 1)) None w) as [[[v | buf x] | e] w1];
    cbn [fst snd] in *.
  - destruct (map_seq_prefix (fun i => with_crc (chunk_at B (fw_data w) i)) m (L / B)
                (if (L mod B =? 0)%nat then [] else [with_crc (skipn (L / B * B) (fw_data w))]) Hm)
      as [more Hmore].
    eexists; exists more. split; [exact Hs | exact Hmore].
  - destruct (Hdone buf x eq_refl) as (-> & Ho1 & Hw1 & Hb1 & Hp1).
    unfold plan. destruct (L mod B =? 0)%nat eqn:Erem.
    + apply Nat.eqb_eq in Erem. rewrite Erem. unfold final_chunk. cbn [Nat.ltb Nat.leb].
      eexists; exists []. split; [| reflexivity].
      destruct x; cbn [snd ret raise]; exact Hs.
    + apply Nat.eqb_neq in Erem.
      destruct (final_chunk_sent h B (L / B) (L mod B) buf x w1) as (res & w2 & -> & Hs2 & _);
        auto; try lia.
      { rewrite Hd. fold L. lia. }
      cbn [snd]. eexists; exists []. split; [| apply app_nil_r].
      rewrite Hs2, Hs, Hd, <- app_assoc. reflexivity.
  - destruct (map_seq_prefix (fun i => with_crc (chunk_at B (fw_data w) i)) m (L / B)
                (if (L mod B =? 0)%nat then [] else [with_crc (skipn (L / B * B) (fw_data w))]) Hm)
      as [more Hmore].
    eexists; exists more. split; [exact Hs | exact Hmore].
Qed.

(** X10.  On an open port whose writes go through, the frames _flash_fw
    sends are always a prefix of the full transfer: the request 01 fe, the
    size frame, the full chunks of the image in order, each with its
    checksum, and the shorter last chunk. Whatever the device answers, no
    frame is sent out of order, twice or in place of another. *)
Theorem flash_fw_sends_prefix_of_plan (h : nat) (ss : Z) (w : world) :
  port_open h w -> writes_all w ->
  exists out more,
    sent (trace (snd (_flash_fw (Some h) ss w))) = sent (trace w) ++ out /\
    out ++ more = transfer_plan (Z.to_nat (ss * 1024)) (fw_data w).
Proof.
  intros Ho Hw. unfold _flash_fw. unfold bind at 1. unfold f_size.
  rewrite snd_try_except_ret.
  set (B := Z.to_nat (ss * 1024)). set (L := length (fw_data w)).
  set (w0 := set_fw_pos w 0).
  set (rest := map (fun i => with_crc (chunk_at B (fw_data w) i)) (seq 0 (L / B)) ++
               (if (L mod B =? 0)%nat then [] else [with_crc (skipn (L / B * B) (fw_data w))])).
  assert (Hplan : transfer_plan B (fw_data w) = [0x01; 0xfe] :: size_frame L :: rest)
    by reflexivity.
  rewrite Hplan.
  unfold bind at 1. rewrite (ensure_open_open h w0 Ho).
  unfold bind at 1.
  rewrite (ser_write_all h [0x01; 0xfe] w0 Ho (writes_all_next w0 Hw)).
  cbn [length Nat.eqb].
  set (w1 := log (pop_write w0) (EvWrite [1; 254] 2)).
  assert (Hs1 : sent (trace w1) = sent (trace w) ++ [[0x01; 0xfe]])
    by (unfold w1; cbn [trace log]; rewrite sent_app; reflexivity).
  assert (Stop1 : forall (res : result (option Z)) (w2 : world),
            sent (trace w2) = sent (trace w1) ->
            exists out more,
              sent (trace (snd (res, w2))) = sent (trace w) ++ out /\
              out ++ more = [0x01; 0xfe] :: size_frame L :: rest).
  { intros res w2 H. exists [[0x01; 0xfe]], (size_frame L :: rest).
    cbn [snd]. rewrite H, Hs1. split; reflexivity. }
  unfold bind at 1. unfold ser_read at 1.
  replace (nth h (handles w1) false) with true by (symmetry; exact Ho).
  cbn [negb].
  destruct (next_read w1) as [b1 | e1].
  2:{ apply Stop1. rewrite sent_log_read_fail. reflexivity. }
  set (w2 := log (pop_read w1) (EvRead 2 (firstn 2 b1))).
  assert (Hs2 : sent (trace w2) = sent (trace w1))
    by (unfold w2; rewrite sent_log_read; reflexivity).
  destruct (0 <? length (firstn 2 b1))%nat; [| now apply Stop1].
  destruct ((py_head (firstn 2 b1) =? 117) && crc_ok (firstn 2 b1)); [| now apply Stop1].
  unfold size_frame in *. fold L.
  destruct (to_bytes4 L) as [b4 |] eqn:Eb4; [| now apply Stop1].
  fold (with_crc b4).
  unfold bind at 1.
  assert (Hw2 : writes_all w2) by (exact (writes_all_pop w Hw)).
  rewrite (ser_write_all h (with_crc b4) w2 Ho (writes_all_next w2 Hw2)).
  set (w3 := log (pop_write w2) (EvWrite (with_crc b4) (length (with_crc b4)))).
  assert (Hs3 : sent (trace w3) = sent (trace w) ++ [[0x01; 0xfe]; with_crc b4]).
  { unfold w3. rewrite (sent_log_write (pop_write w2) (with_crc b4)).
    change (sent (trace (pop_write w2))) with (sent (trace w2)).
    rewrite Hs2, Hs1, <- app_assoc. reflexivity. }
  assert (Stop2 : forall (res : result (option Z)) (w4 : world),
            sent (trace w4) = sent (trace w3) ->
            exists out more,
              sent (trace (snd (res, w4))) = sent (trace w) ++ out /\
              out ++ more = [0x01; 0xfe] :: with_crc b4 :: rest).
  { intros res w4 H. exists [[0x01; 0xfe]; with_crc b4], rest.
    cbn [snd]. rewrite H, Hs3. split; reflexivity. }
  destruct (length (with_crc b4) =? 5)%nat; [| now apply Stop2].
  unfold bind at 1. unfold ser_read at 1.
  replace (nth h (handles w3) false) with true by (symmetry; exact Ho).
  cbn [negb].
  destruct (next_read w3) as [b2 | e2].
  2:{ apply Stop2. rewrite sent_log_read_fail. reflexivity. }
  set (w4 := log (pop_read w3) (EvRead 2 (firstn 2 b2))).
  assert (Hs4 : sent (trace w4) = sent (trace w3))
    by (unfold w4; rewrite sent_log_read; reflexivity).
  destruct (0 <? length (firstn 2 b2))%nat; [| now apply Stop2].
  destruct ((length (firstn 2 b2) =? 2)%nat && crc_ok (firstn 2 b2)); [| now apply Stop2].
  destruct (py_head (firstn 2 b2) =? 117); [| now apply Stop2].
  destruct (flash_chunks_prefix h B w4) as (out & more & Hout & Hmore).
  { exact Ho. } { exact (writes_all_pop w2 Hw2). } { reflexivity. }
  exists ([0x01; 0xfe] :: with_crc b4 :: out), more. split.
  - change (length (fw_data w4)) with L in Hout. rewrite Hout, Hs4, Hs3, <- app_assoc.
    reflexivity.
  - cbn [app]. do 2 f_equal. exact Hmore.
Qed.

Lemma flash_fw_sends_prefix_of_plan_witness :
  port_open 0 w_refused_last /\ writes_all w_refused_last /\
  exists out more,
    sent (trace (snd (_flash_fw (Some 0%nat) 1 w_refused_last))) =
      sent (trace w_refused_last) ++ out /\
    out ++ more = transfer_plan (Z.to_nat (1 * 1024)) (fw_data w_refused_last).
Proof.
  assert (H1 : port_open 0 w_refused_last) by reflexivity.
  assert (H2 : writes_all w_refused_last) by constructor.
  exact (conj H1 (conj H2 (flash_fw_sends_prefix_of_plan 0 1 w_refused_last H1 H2))).
Defined.

(** the answer that lets the negotiation go on is [ack] and nothing else *)
Lemma ack_check_iff (r : bytes) :
  (length r <= 2)%nat ->
  ((py_head r =? 0x75) && crc_ok r = true <-> r = ack).
Proof.
  intros Hl. destruct r as [| x [| y [| z t]]]; cbn [length] in Hl; try lia.
  - split; discriminate.
  - unfold crc_ok, py_head. cbn. change (crc []) with 255. split; [| discriminate].
    intros H. apply andb_prop in H as [H1 H2]. apply Z.eqb_eq in H1, H2. lia.
  - rewrite crc_ok_pair. unfold py_head, hd. split.
    + intros H. apply andb_prop in H as [H1 H2]. apply Z.eqb_eq in H1, H2. now subst.
    + intros H. injection H as -> ->. reflexivity.
Qed.

Lemma size_check_iff (r : bytes) :
  (length r <= 2)%nat ->
  ((0 <? length r)%nat && ((length r =? 2)%nat && crc_ok r) && (py_head r =? 0x75) = true
   <-> r = ack).
Proof.
  intros Hl. destruct r as [| x [| y [| z t]]]; cbn [length] in Hl; try lia.
  - split; discriminate.
  - split; discriminate.
  - rewrite crc_ok_pair. unfold py_head, hd. cbn [length Nat.ltb Nat.leb Nat.eqb andb]. split.
    + intros H. apply andb_prop in H as [H1 H2]. apply Z.eqb_eq in H1, H2. now subst.
    + intros H. injection H as -> ->. reflexivity.
Qed.

(** X11.  On an open port whose writes go through, if the answer to the
    update request is not the acknowledgement 75 8a, _flash_fw sends nothing
    after the request 01 fe and returns 0 when nothing was read and 2
    otherwise; it has consumed that one answer. *)
Theorem flash_fw_request_refused (h : nat) (ss : Z) (w : world) (b : bytes) :
  port_open h w -> writes_all w ->
  next_read w = RBytes b -> firstn 2 b <> ack ->
  fst (_flash_fw (Some h) ss w) = Ret (Some (if (length b =? 0)%nat then 0 else 2)) /\
  sent (trace (snd (_flash_fw (Some h) ss w))) = sent (trace w) ++ [[0x01; 0xfe]] /\
  read_q (snd (_flash_fw (Some h) ss w)) = tl (read_q w).
Proof.
  intros Ho Hw Hr Hn.
  assert (E : _flash_fw (Some h) ss w =
              (Ret (Some (if (length b =? 0)%nat then 0 else 2)),
               exchanged (set_fw_pos w 0) [0x01; 0xfe] 2 b)).
  { unfold _flash_fw. unfold bind at 1. unfold f_size.
    set (w0 := set_fw_pos w 0).
    rewrite (try_except_bind _ _ _ _ w0 w0 tt) by (now apply ensure_open_open).
    rewrite (try_except_bind _ _ _ _ w0 (log (pop_write w0) (EvWrite [1; 254] 2)) 2%nat)
      by (apply ser_write_all; [exact Ho | now apply writes_all_next]).
    cbn [Nat.eqb].
    rewrite (try_except_bind _ _ _ _ _ (exchanged w0 [0x01; 0xfe] 2 b) (firstn 2 b)).
    2:{ rewrite (ser_read_bytes h 2 b); [reflexivity | exact Ho | exact Hr]. }
    assert (Hc : (py_head (firstn 2 b) =? 117) && crc_ok (firstn 2 b) = false).
    { destruct ((py_head (firstn 2 b) =? 117) && crc_ok (firstn 2 b)) eqn:E; [| reflexivity].
      apply ack_check_iff in E; [contradiction | rewrite length_firstn; lia]. }
    rewrite Hc. destruct b as [| x [| y t]]; reflexivity. }
  rewrite E. cbn [fst snd]. refine (conj eq_refl (conj _ eq_refl)).
  unfold exchanged. rewrite sent_log_read.
  cbn [trace log pop_read pop_write set_read_q set_write_q set_fw_pos].
  rewrite sent_app. reflexivity.
Qed.

Lemma flash_fw_request_refused_witness :
  firstn 2 bad_crc_frame <> ack /\
  fst (_flash_fw (Some 0%nat) 1 (opened (image 10) [RBytes bad_crc_frame; RBytes ack])) =
    Ret (Some 2) /\
  sent (trace (snd (_flash_fw (Some 0%nat) 1
                      (opened (image 10) [RBytes bad_crc_frame; RBytes ack])))) =
    [[0x01; 0xfe]] /\
  read_q (snd (_flash_fw (Some 0%nat) 1
                 (opened (image 10) [RBytes bad_crc_frame; RBytes ack]))) = [RBytes ack].
Proof.
  assert (H : firstn 2 bad_crc_frame <> ack) by discriminate.
  exact (conj H (flash_fw_request_refused 0 1
                   (opened (image 10) [RBytes bad_crc_frame; RBytes ack]) bad_crc_frame
                   eq_refl (Forall_nil _) eq_refl H)).
Defined.

(** X12.  On an open port whose writes go through and for an image of fewer
    than 2^32 bytes, if the update request is acknowledged but the answer to
    the size frame is not the acknowledgement 75 8a, _flash_fw returns 0
    having sent the request and the size frame only: no chunk of the image
    is sent. *)
Theorem flash_fw_size_refused (h : nat) (ss : Z) (w : world) (b : bytes)
    (rq : list read_outcome) :
  port_open h w -> writes_all w -> Z.of_nat (length (fw_data w)) < 2 ^ 32 ->
  read_q w = RBytes ack :: RBytes b :: rq -> firstn 2 b <> ack ->
  fst (_flash_fw (Some h) ss w) = Ret (Some 0) /\
  sent (trace (snd (_flash_fw (Some h) ss w))) =
    sent (trace w) ++ [[0x01; 0xfe]; size_frame (length (fw_data w))] /\
  read_q (snd (_flash_fw (Some h) ss w)) = rq.
Proof.
  intros Ho Hw HL Hr Hn.
  destruct (to_bytes4_some _ HL) as (b4 & Hb4 & Hlen4).
  set (w0 := set_fw_pos w 0).
  set (w1 := exchanged w0 [0x01; 0xfe] 2 ack).
  set (w2 := exchanged w1 (with_crc b4) 2 b).
  assert (E1 : evolves h w0 w1 [[0x01; 0xfe]] (RBytes b :: rq)).
  { pose proof (exchanged_evolves h w0 [0x01; 0xfe] 2 ack Ho Hw) as E.
    cbn [read_q set_fw_pos w0] in E. rewrite Hr in E. exact E. }
  assert (E2 : evolves h w1 w2 [with_crc b4] rq).
  { pose proof (exchanged_evolves h w1 (with_crc b4) 2 b (ev_open _ _ _ _ _ E1)
                  (ev_writes _ _ _ _ _ E1)) as E.
    rewrite (ev_reads _ _ _ _ _ E1) in E. exact E. }
  assert (E : _flash_fw (Some h) ss w = (Ret (Some 0), w2)).
  { unfold _flash_fw. unfold bind at 1. unfold f_size. fold w0.
    rewrite (try_except_bind _ _ _ _ w0 w0 tt) by (now apply ensure_open_open).
    rewrite (try_except_bind _ _ _ _ w0 (log (pop_write w0) (EvWrite [1; 254] 2)) 2%nat)
      by (apply ser_write_all; [exact Ho | now apply writes_all_next]).
    cbn [Nat.eqb].
    rewrite (try_except_bind _ _ _ _ _ w1 ack).
    2:{ rewrite (ser_read_bytes h 2 ack); [reflexivity | exact Ho |].
        unfold next_read. cbn. now rewrite Hr. }
    change ((0 <? length ack)%nat) with true.
    change ((py_head ack =? 117) && crc_ok ack) with true. cbv iota.
    change (length (fw_data w0)) with (length (fw_data w)). rewrite Hb4. fold (with_crc b4).
    rewrite (try_except_bind _ _ _ _ w1 (log (pop_write w1) (EvWrite (with_crc b4) 5)) 5%nat).
    2:{ rewrite ser_write_all.
        - unfold with_crc. rewrite length_app, Hlen4. reflexivity.
        - apply E1.
        - apply writes_all_next, E1. }
    cbn [Nat.eqb].
    rewrite (try_except_bind _ _ _ _ _ w2 (firstn 2 b)).
    2:{ rewrite (ser_read_bytes h 2 b).
        - unfold w2, exchanged, with_crc. rewrite length_app, Hlen4. reflexivity.
        - apply E1.
        - unfold next_read. cbn [read_q log pop_write set_write_q].
          now rewrite (ev_reads _ _ _ _ _ E1). }
    assert (Hc : (0 <? length (firstn 2 b))%nat &&
                 ((length (firstn 2 b) =? 2)%nat && crc_ok (firstn 2 b)) &&
                 (py_head (firstn 2 b) =? 117) = false).
    { match goal with |- ?c = false => destruct c eqn:E end; [| reflexivity].
      apply size_check_iff in E; [contradiction | rewrite length_firstn; lia]. }
    destruct (0 <? length (firstn 2 b))%nat; [| reflexivity].
    destruct ((length (firstn 2 b) =? 2)%nat && crc_ok (firstn 2 b)); [| reflexivity].
    cbn [andb] in Hc. rewrite Hc. reflexivity. }
  rewrite E. cbn [fst snd].
  pose proof (evolves_trans h w0 w1 w2 _ _ _ _ E1 E2) as E3.
  refine (conj eq_refl (conj _ (ev_reads _ _ _ _ _ E3))).
  rewrite (ev_sent _ _ _ _ _ E3). unfold size_frame. rewrite Hb4. reflexivity.
Qed.

Lemma flash_fw_size_refused_witness :
  firstn 2 bad_crc_frame <> ack /\
  fst (_flash_fw (Some 0%nat) 1
         (opened (image 10) [RBytes ack; RBytes bad_crc_frame; RBytes ack])) = Ret (Some 0) /\
  sent (trace (snd (_flash_fw (Some 0%nat) 1
                      (opened (image 10) [RBytes ack; RBytes bad_crc_frame; RBytes ack])))) =
    [[0x01; 0xfe]; size_frame 10] /\
  read_q (snd (_flash_fw (Some 0%nat) 1
                 (opened (image 10) [RBytes ack; RBytes bad_crc_frame; RBytes ack]))) =
    [RBytes ack].
Proof.
  assert (H : firstn 2 bad_crc_frame <> ack) by discriminate.
  assert (Hl : Z.of_nat (length (fw_data
            (opened (image 10) [RBytes ack; RBytes bad_crc_frame; RBytes ack]))) < 2 ^ 32)
    by (vm_compute; reflexivity).
  exact (conj H (flash_fw_size_refused 0 1
                   (opened (image 10) [RBytes ack; RBytes bad_crc_frame; RBytes ack])
                   bad_crc_frame [RBytes ack] eq_refl (Forall_nil _) Hl eq_refl H)).
Defined.

(** ** The size frame *)

(** X13.  For an image of fewer than 2^32 bytes the size frame is four byte
    values b0 b1 b2 b3 with b0 + 256 b1 + 65536 b2 + 16777216 b3 equal to
    the size (little-endian), followed by their checksum; the frame passes
    the response check. *)
Theorem size_frame_little_endian (L : nat) :
  Z.of_nat L < 2 ^ 32 ->
  exists b0 b1 b2 b3,
    to_bytes4 L = Some [b0; b1; b2; b3] /\
    size_frame L = [b0; b1; b2; b3; crc [b0; b1; b2; b3]] /\
    (0 <= b0 < 256 /\ 0 <= b1 < 256 /\ 0 <= b2 < 256 /\ 0 <= b3 < 256) /\
    b0 + 256 * b1 + 65536 * b2 + 16777216 * b3 = Z.of_nat L /\
    crc_ok (size_frame L) = true.
Proof.
  intros H. unfold size_frame, to_bytes4. cbv zeta.
  replace (Z.of_nat L <? 2 ^ 32) with true by (symmetry; apply Z.ltb_lt; exact H).
  set (z := Z.of_nat L) in *. assert (Hz : 0 <= z) by (unfold z; lia).
  do 4 eexists. split; [reflexivity |]. split; [reflexivity |].
  split; [| split].
  - repeat split; try (apply Z.mod_pos_bound; lia).
  - change (2 ^ 32) with 4294967296 in H.
    assert (H3 : z / 16777216 < 256) by (apply Z.div_lt_upper_bound; lia).
    assert (H3' : 0 <= z / 16777216) by (apply Z.div_pos; lia).
    rewrite (Z.mod_small (z / 16777216)) by lia.
    assert (E1 : z / 65536 = z / 256 / 256) by (rewrite Z.div_div by lia; reflexivity).
    assert (E2 : z / 16777216 = z / 256 / 256 / 256) by (rewrite !Z.div_div by lia; reflexivity).
    rewrite E1, E2.
    pose proof (Z.div_mod z 256 ltac:(lia)).
    pose proof (Z.div_mod (z / 256) 256 ltac:(lia)).
    pose proof (Z.div_mod (z / 256 / 256) 256 ltac:(lia)).
    lia.
  - apply (crc_ok_snoc [_; _; _; _]).
Qed.

Lemma size_frame_little_endian_witness :
  Z.of_nat 2500 < 2 ^ 32 /\
  exists b0 b1 b2 b3,
    to_bytes4 2500 = Some [b0; b1; b2; b3] /\
    size_frame 2500 = [b0; b1; b2; b3; crc [b0; b1; b2; b3]] /\
    (0 <= b0 < 256 /\ 0 <= b1 < 256 /\ 0 <= b2 < 256 /\ 0 <= b3 < 256) /\
    b0 + 256 * b1 + 65536 * b2 + 16777216 * b3 = Z.of_nat 2500 /\
    crc_ok (size_frame 2500) = true.
Proof.
  assert (H : Z.of_nat 2500 < 2 ^ 32) by (vm_compute; reflexivity).
  exact (conj H (size_frame_little_endian 2500 H)).
Defined.

Lemma to_bytes4_overflow (L : nat) : 2 ^ 32 <= Z.of_nat L -> to_bytes4 L = None.
Proof.
  intros H. unfold to_bytes4. cbv zeta.
  now replace (Z.of_nat L <? 2 ^ 32) with false by (symmetry; apply Z.ltb_ge; exact H).
Qed.

(** ** Update as a whole *)

(** [update] up to the loop of the attempts, when the port opens and the
    device reports the sector size [ss]. *)
Lemma update_after_sector_size (w : world) (ss : Z) :
  fw_exists w = true -> next_open w = None -> writes_all w ->
  next_read w = RBytes [ss; crc [ss]] ->
  let h := length (handles w) in
  let w1 := exchanged (set_fw_pos (set_handles (pop_open w) (handles w ++ [true])) 0)
              [0x03; 0xfc] 2 [ss; crc [ss]] in
  update w =
    try_finally
      (try_except (flash_loop 3 (Some h) ss) any_exception (fun _ => ret false))
      (ser_close (Some h)) w1 /\
  port_open h w1 /\ writes_all w1 /\
  read_q w1 = tl (read_q w) /\ fw_data w1 = fw_data w /\
  handles w1 = handles w ++ [true] /\
  sent (trace w1) = sent (trace w) ++ [[0x03; 0xfc]].
Proof.
  intros Hex Hop Hw Hr h w1.
  set (w0 := set_handles (pop_open w) (handles w ++ [true])).
  set (w0' := set_fw_pos w0 0).
  assert (Ho : port_open h w0').
  { unfold port_open, w0', w0, h. cbn. apply nth_middle. }
  assert (Hw0 : writes_all w0') by exact Hw.
  pose proof (exchanged_evolves h w0' [0x03; 0xfc] 2 [ss; crc [ss]] Ho Hw0) as E.
  refine (conj _ (conj (ev_open _ _ _ _ _ E) (conj (ev_writes _ _ _ _ _ E)
           (conj eq_refl (conj eq_refl (conj eq_refl (ev_sent _ _ _ _ _ E))))))).
  unfold update. rewrite Hex. cbn [negb]. unfold bind at 1.
  rewrite (open_port_fresh w Hop). fold h w0.
  unfold try_finally, try_except. unfold bind at 1.
  assert (Hfo : f_open w0 = (Ret tt, w0')).
  { unfold f_open. cbn [fw_exists w0 set_handles pop_open set_open_q]. now rewrite Hex. }
  rewrite Hfo. unfold bind at 1.
  rewrite (get_sector_size_result h w0' ss Ho Hw0 Hr). reflexivity.
Qed.

Lemma closed_after (h : nat) (w : world) :
  (h < length (handles w))%nat ->
  nth h (handles (snd (ser_close (Some h) w))) false = false.
Proof. intros H. cbn. now apply nth_set_flag_same. Qed.

(** X14.  With the firmware file present and the port working, if the device
    reports the sector size 0 and acknowledges the request and the size,
    update returns False after one attempt: it has sent the sector-size
    query, the update request and the size frame and nothing else, and the
    answers after those are left unread. The division by zero of the first
    attempt ends the retries. *)
Theorem update_zero_sector_size (w : world) (rq : list read_outcome) :
  fw_exists w = true -> next_open w = None -> writes_all w ->
  Z.of_nat (length (fw_data w)) < 2 ^ 32 ->
  read_q w = RBytes [0; crc [0]] :: RBytes ack :: RBytes ack :: rq ->
  fst (update w) = Ret false /\
  sent (trace (snd (update w))) =
    sent (trace w) ++ [[0x03; 0xfc]; [0x01; 0xfe]; size_frame (length (fw_data w))] /\
  read_q (snd (update w)) = rq.
Proof.
  intros Hex Hop Hw HL Hr.
  destruct (update_after_sector_size w 0 Hex Hop Hw) as (Hup & Ho1 & Hw1 & Hr1 & Hd1 & Hh1 & Hs1).
  { unfold next_read. now rewrite Hr. }
  set (h := length (handles w)) in *.
  set (w1 := exchanged _ _ _ _) in *.
  rewrite Hr in Hr1. cbn [tl] in Hr1.
  destruct (flash_fw_negotiated h 0 w1 rq Ho1 Hw1) as (w2 & Hrun & _ & E2).
  { rewrite Hd1. exact HL. } { exact Hr1. }
  assert (Hf : _flash_fw (Some h) 0 w1 = (Raise ZeroDivisionError, w2))
    by (rewrite Hrun; reflexivity).
  assert (Eq : update w = (Ret false, snd (ser_close (Some h) w2))).
  { rewrite Hup. unfold try_finally, try_except. cbn [flash_loop]. unfold bind at 1.
    rewrite Hf. reflexivity. }
  rewrite Eq. cbn [fst snd ser_close trace read_q set_handles].
  refine (conj eq_refl (conj _ (ev_reads _ _ _ _ _ E2))).
  rewrite (ev_sent _ _ _ _ _ E2), Hs1, Hd1, <- app_assoc. reflexivity.
Qed.

Lemma update_zero_sector_size_witness :
  fst (update (fresh (image 10) [RBytes [0; 0xff]; RBytes ack; RBytes ack; RBytes ack])) =
    Ret false /\
  sent (trace (snd (update
          (fresh (image 10) [RBytes [0; 0xff]; RBytes ack; RBytes ack; RBytes ack])))) =
    [[0x03; 0xfc]; [0x01; 0xfe]; size_frame 10] /\
  read_q (snd (update
          (fresh (image 10) [RBytes [0; 0xff]; RBytes ack; RBytes ack; RBytes ack]))) =
    [RBytes ack].
Proof.
  assert (Hl : Z.of_nat (length (fw_data
            (fresh (image 10) [RBytes [0; 0xff]; RBytes ack; RBytes ack; RBytes ack])))
          < 2 ^ 32) by (vm_compute; reflexivity).
  exact (update_zero_sector_size
           (fresh (image 10) [RBytes [0; 0xff]; RBytes ack; RBytes ack; RBytes ack])
           [RBytes ack] eq_refl eq_refl (Forall_nil _) Hl eq_refl).
Defined.

Lemma flash_fw_last_chunk_run (h : nat) (ss : Z) (w : world) (r : bytes)
    (rq : list read_outcome) :
  let L := length (fw_data w) in
  let B := Z.to_nat (ss * 1024) in
  port_open h w -> writes_all w -> 0 < ss -> Z.of_nat L < 2 ^ 32 ->
  (L mod B <> 0)%nat ->
  length r = 2%nat -> crc_ok r = true ->
  read_q w = RBytes ack :: RBytes ack :: repeat (RBytes ack) (L / B) ++ RBytes r :: rq ->
  exists w',
    _flash_fw (Some h) ss w = (Ret (fw_status_check r), w') /\
    evolves h w w' (transfer_plan B (fw_data w)) rq.
Proof.
  intros L B Ho Hw Hss HL Hrem0 Hl Hcrc Hr.
  assert (HB : (0 < B)%nat) by (unfold B; lia).
  destruct (div_mod_chunks L B HB) as [Hdm Hrem].
  destruct (flash_fw_negotiated h ss w _ Ho Hw HL Hr) as (w2 & -> & Hp2 & E2).
  fold L B.
  destruct (chunk_loop_acks h B (L / B) 0 0 (bytearray (B + 1)) None w2 (RBytes r :: rq))
    as (w3 & buf3 & x3 & Hrun & Hb3 & Hx3 & Hp3 & E3).
  { apply E2. } { apply E2. } { rewrite bytearray_length. lia. } { apply E2. }
  { rewrite Hp2. reflexivity. }
  { rewrite (ev_data _ _ _ _ _ E2). fold L. simpl. lia. }
  rewrite Nat.add_0_r in Hrun. cbn [chunk_loop] in Hrun.
  rewrite (ev_data _ _ _ _ _ E2) in E3.
  pose proof (evolves_trans h w w2 w3 _ _ _ _ E2 E3) as E.
  assert (Hd3 : fw_data w3 = fw_data w) by apply E.
  set (d := skipn (L / B * B) (fw_data w)).
  set (w3' := set_fw_pos w3 (L / B * B + L mod B)).
  exists (exchanged w3' (with_crc d) 2 r). split.
  - unfold try_except, flash_chunks.
    replace (B =? 0)%nat with false by (symmetry; apply Nat.eqb_neq; lia).
    unfold bind at 1. rewrite Hrun. unfold ret at 1.
    rewrite (final_chunk_written h B (L / B) (L mod B) buf3 x3 w3);
      [| apply E3 | apply E3 | exact Hb3 | lia | rewrite Hp3; reflexivity
       | rewrite Hd3; fold L; lia].
    rewrite Hd3. fold d w3'. unfold bind.
    rewrite (ser_read_bytes h 2 r); [| apply E3 |].
    2:{ unfold next_read. cbn [read_q log pop_write set_write_q w3' set_fw_pos].
        now rewrite (ev_reads _ _ _ _ _ E3). }
    rewrite firstn_all2 by lia. rewrite Hl, Hcrc. cbn [Nat.eqb andb ret].
    unfold exchanged. rewrite firstn_all2 by lia. reflexivity.
  - assert (E4 : evolves h w3 (exchanged w3' (with_crc d) 2 r) [with_crc d] rq).
    { pose proof (exchanged_evolves h w3' (with_crc d) 2 r (ev_open _ _ _ _ _ E3)
                    (ev_writes _ _ _ _ _ E3)) as E4.
      cbn [read_q w3' set_fw_pos] in E4. rewrite (ev_reads _ _ _ _ _ E3) in E4.
      destruct E4. constructor; assumption. }
    pose proof (evolves_trans h w w3 _ _ _ _ _ E E4) as E5.
    unfold transfer_plan. fold L.
    replace (L mod B =? 0)%nat with false by (symmetry; apply Nat.eqb_neq; exact Hrem0).
    fold d. rewrite <- app_assoc in E5. exact E5.
Qed.

(** X15.  With the firmware file present, the port opening, every write
    going through and a device that reports a sector size above 0,
    acknowledges the request, the size and every full chunk and answers the
    shorter last chunk with 20 df, update returns True; it has sent the
    sector-size query followed by exactly the whole transfer, consumed
    exactly these answers, and closed the port. *)
Theorem update_succeeds (w : world) (ss : Z) (rq : list read_outcome) :
  let L := length (fw_data w) in
  let B := Z.to_nat (ss * 1024) in
  let h := length (handles w) in
  fw_exists w = true -> next_open w = None -> writes_all w ->
  0 < ss -> Z.of_nat L < 2 ^ 32 -> (L mod B <> 0)%nat ->
  read_q w = RBytes [ss; crc [ss]] :: RBytes ack :: RBytes ack ::
             repeat (RBytes ack) (L / B) ++ RBytes done_frame :: rq ->
  fst (update w) = Ret true /\
  sent (trace (snd (update w))) =
    sent (trace w) ++ [0x03; 0xfc] :: transfer_plan B (fw_data w) /\
  read_q (snd (update w)) = rq /\
  nth h (handles (snd (update w))) false = false.
Proof.
  intros L B h Hex Hop Hw Hss HL Hrem Hr.
  destruct (update_after_sector_size w ss Hex Hop Hw) as (Hup & Ho1 & Hw1 & Hr1 & Hd1 & Hh1 & Hs1).
  { unfold next_read. now rewrite Hr. }
  fold h in Hup, Ho1.
  set (w1 := exchanged _ _ _ _) in *.
  rewrite Hr in Hr1. cbn [tl] in Hr1.
  destruct (flash_fw_last_chunk_run h ss w1 done_frame rq Ho1 Hw1 Hss) as (w2 & Hrun & E2).
  { rewrite Hd1. exact HL. } { rewrite Hd1. exact Hrem. } { reflexivity. } { reflexivity. }
  { rewrite Hd1. exact Hr1. }
  assert (Eq : update w = (Ret true, snd (ser_close (Some h) w2))).
  { rewrite Hup. unfold try_finally, try_except. cbn [flash_loop]. unfold bind at 1.
    rewrite Hrun. reflexivity. }
  rewrite Eq. cbn [fst snd ser_close trace read_q handles set_handles].
  refine (conj eq_refl (conj _ (conj (ev_reads _ _ _ _ _ E2) _))).
  - rewrite (ev_sent _ _ _ _ _ E2), Hs1, Hd1, <- app_assoc. reflexivity.
  - apply nth_set_flag_same. rewrite (ev_handles _ _ _ _ _ E2), Hh1, length_app.
    simpl. unfold h. lia.
Qed.

Lemma update_succeeds_witness :
  fst (update w_update_ok) = Ret true /\
  sent (trace (snd (update w_update_ok))) =
    [0x03; 0xfc] :: transfer_plan 1024 (image 2500) /\
  read_q (snd (update w_update_ok)) = [] /\
  handles (snd (update w_update_ok)) = [false].
Proof.
  assert (H4 : 0 < 1) by lia.
  assert (H5 : Z.of_nat (length (fw_data w_update_ok)) < 2 ^ 32) by (vm_compute; reflexivity).
  assert (H6 : (length (fw_data w_update_ok) mod Z.to_nat (1 * 1024) <> 0)%nat)
    by (vm_compute; discriminate).
  assert (H7 : read_q w_update_ok =
            RBytes [1; crc [1]] :: RBytes ack :: RBytes ack ::
            repeat (RBytes ack) (length (fw_data w_update_ok) / Z.to_nat (1 * 1024)) ++
            RBytes done_frame :: []) by (vm_compute; reflexivity).
  destruct (update_succeeds w_update_ok 1 [] eq_refl eq_refl (Forall_nil _) H4 H5 H6 H7)
    as (Hr & Hs & Hq & _).
  refine (conj Hr (conj Hs (conj Hq _))). vm_compute. reflexivity.
Defined.

Lemma added_app_intro (w w' : world) (evs : list event) :
  trace w' = trace w ++ evs -> added w w' = evs.
Proof. unfold added. intros ->. apply skipn_length_app. Qed.

Lemma get_sector_size_run (h : nat) (w : world) (b : bytes) :
  port_open h w -> writes_some (next_write w) = true -> next_read w = RBytes b ->
  exists k,
    _get_sector_size (Some h) w =
    (Ret (if (length (firstn 2 b) =? 2)%nat && crc_ok (firstn 2 b)
          then Some (py_head (firstn 2 b)) else None),
     log (pop_read (log (pop_write w) (EvWrite [0x03; 0xfc] k))) (EvRead 2 (firstn 2 b))).
Proof.
  intros Ho Hw Hr. unfold _get_sector_size, try_except, bind.
  rewrite (ensure_open_open _ _ Ho).
  destruct (ser_write_some h [0x03; 0xfc] w Ho Hw) as (k & Hk & ->); [discriminate |].
  exists k. rewrite Hk.
  rewrite (ser_read_bytes h 2 b); [| exact Ho | exact Hr].
  destruct (firstn 2 b) as [| x t]; [reflexivity |].
  cbn [length Nat.ltb Nat.leb].
  match goal with |- context [if ?c then _ else _] => destruct c end; reflexivity.
Qed.

(** X16.  With the firmware file present and the port open and written to,
    if the answer to the sector-size query is not two bytes with a valid
    checksum (a timeout included), update returns False: the traffic of the
    whole operation is the request 03 fc and the one read, no transfer is
    attempted, and the port is closed. *)
Theorem update_without_sector_size (w : world) (b : bytes) :
  let h := length (handles w) in
  fw_exists w = true -> next_open w = None ->
  writes_some (next_write w) = true -> next_read w = RBytes b ->
  length (firstn 2 b) <> 2%nat \/ crc_ok (firstn 2 b) = false ->
  fst (update w) = Ret false /\
  (exists k, added w (snd (update w)) = [EvWrite [0x03; 0xfc] k; EvRead 2 (firstn 2 b)]) /\
  nth h (handles (snd (update w))) false = false.
Proof.
  intros h Hex Hop Hw Hr Hbad.
  set (w0 := set_handles (pop_open w) (handles w ++ [true])).
  set (w0' := set_fw_pos w0 0).
  assert (Ho : port_open h w0').
  { unfold port_open, w0', w0, h. cbn. apply nth_middle. }
  destruct (get_sector_size_run h w0' b Ho Hw Hr) as (k & Hrun).
  assert (Hc : (length (firstn 2 b) =? 2)%nat && crc_ok (firstn 2 b) = false).
  { destruct Hbad as [H | H].
    - apply Nat.eqb_neq in H. now rewrite H.
    - rewrite H. apply andb_false_r. }
  rewrite Hc in Hrun.
  assert (Hfo : f_open w0 = (Ret tt, w0')).
  { unfold f_open. cbn [fw_exists w0 set_handles pop_open set_open_q]. now rewrite Hex. }
  assert (Eq : update w =
               (Ret false,
                snd (ser_close (Some h)
                       (log (pop_read (log (pop_write w0') (EvWrite [0x03; 0xfc] k)))
                          (EvRead 2 (firstn 2 b)))))).
  { unfold update. rewrite Hex. cbn [negb]. unfold bind at 1.
    rewrite (open_port_fresh w Hop). fold h w0.
    unfold try_finally, try_except. unfold bind at 1. rewrite Hfo.
    unfold bind at 1. rewrite Hrun. reflexivity. }
  rewrite Eq. cbn [fst snd ser_close]. refine (conj eq_refl (conj _ _)).
  - exists k. apply added_app_intro. cbn. now rewrite <- app_assoc.
  - cbn. apply nth_set_flag_same. rewrite length_app. simpl. unfold h. lia.
Qed.

Lemma update_without_sector_size_witness :
  fst (update w_no_sector_size) = Ret false /\
  (exists k, added w_no_sector_size (snd (update w_no_sector_size)) =
             [EvWrite [0x03; 0xfc] k; EvRead 2 []]) /\
  handles (snd (update w_no_sector_size)) = [false].
Proof.
  destruct (update_without_sector_size w_no_sector_size [] eq_refl eq_refl eq_refl eq_refl)
    as (Hr & Ha & _).
  { left. discriminate. }
  refine (conj Hr (conj Ha _)). reflexivity.
Defined.

Lemma open_port_fw_exists (w : world) : fw_exists (snd (open_port w)) = fw_exists w.
Proof.
  unfold open_port, try_except, bind, Serial_new, ret.
  run_stage; reflexivity.
Qed.

Lemma update_opened (w w0 : world) (h : nat) :
  fw_exists w = true -> open_port w = (Ret (Some h), w0) ->
  update w =
  try_finally
    (try_except
       (ss <- _get_sector_size (Some h) ;;
        match ss with
        | None => ret false
        | Some ss => flash_loop 3 (Some h) ss
        end)
       any_exception (fun _ => ret false))
    (ser_close (Some h)) (set_fw_pos w0 0).
Proof.
  intros Hex Ho. unfold update. rewrite Hex. cbn [negb]. unfold bind at 1. rewrite Ho.
  pose proof (open_port_fw_exists w) as He. rewrite Ho in He. cbn [snd] in He.
  unfold try_finally, try_except. unfold bind at 1. unfold f_open.
  rewrite He, Hex. reflexivity.
Qed.

Lemma update_with_sector_size (w w0 w1 : world) (h : nat) (ss : Z) :
  fw_exists w = true -> open_port w = (Ret (Some h), w0) ->
  _get_sector_size (Some h) (set_fw_pos w0 0) = (Ret (Some ss), w1) ->
  update w =
  try_finally
    (try_except (flash_loop 3 (Some h) ss) any_exception (fun _ => ret false))
    (ser_close (Some h)) w1.
Proof.
  intros Hex Ho Hss. rewrite (update_opened w w0 h Hex Ho).
  unfold try_finally, try_except. unfold bind at 1. now rewrite Hss.
Qed.

(** X17.  Once the port is open and a sector size is known, update runs
    _flash_fw at most three times: it returns True at the first attempt that
    returns 1 and False after three attempts that return something else, and
    an exception that escapes an attempt ends the retries at once with
    False. Each time the state left is that of the last attempt made, with
    the port closed. *)
Theorem update_at_most_three (w w0 w1 : world) (h : nat) (ss : Z) :
  fw_exists w = true ->
  open_port w = (Ret (Some h), w0) ->
  _get_sector_size (Some h) (set_fw_pos w0 0) = (Ret (Some ss), w1) ->
  let a1 := _flash_fw (Some h) ss w1 in
  let a2 := _flash_fw (Some h) ss (snd a1) in
  let a3 := _flash_fw (Some h) ss (snd a2) in
  let closed := fun w' => snd (ser_close (Some h) w') in
  (flash_failed a1 -> flash_failed a2 -> flash_failed a3 ->
   update w = (Ret false, closed (snd a3))) /\
  (fst a1 = Ret (Some 1) -> update w = (Ret true, closed (snd a1))) /\
  (flash_failed a1 -> fst a2 = Ret (Some 1) -> update w = (Ret true, closed (snd a2))) /\
  (flash_failed a1 -> flash_failed a2 -> fst a3 = Ret (Some 1) ->
   update w = (Ret true, closed (snd a3))) /\
  (forall e, fst a1 = Raise e -> update w = (Ret false, closed (snd a1))) /\
  (forall e, flash_failed a1 -> fst a2 = Raise e -> update w = (Ret false, closed (snd a2))) /\
  (forall e, flash_failed a1 -> flash_failed a2 -> fst a3 = Raise e ->
   update w = (Ret false, closed (snd a3))).
Proof.
  intros Hex Ho Hss. cbv zeta.
  rewrite (update_with_sector_size w w0 w1 h ss Hex Ho Hss).
  unfold try_finally, try_except.
  cbn [flash_loop]. unfold flash_failed, bind, ret.
  destruct (_flash_fw (Some h) ss w1) as [[v1 | e1] u1]; cbn [fst snd];
    [destruct v1 as [z1 |]; [destruct (z1 =? 1) eqn:E1 |] |];
    try (destruct (_flash_fw (Some h) ss u1) as [[v2 | e2] u2]; cbn [fst snd];
         [destruct v2 as [z2 |]; [destruct (z2 =? 1) eqn:E2 |] |]);
    try (destruct (_flash_fw (Some h) ss u2) as [[v3 | e3] u3]; cbn [fst snd];
         [destruct v3 as [z3 |]; [destruct (z3 =? 1) eqn:E3 |] |]);
    repeat match goal with
           | H : (_ =? _) = true |- _ => apply Z.eqb_eq in H; subst
           | H : (_ =? _) = false |- _ => apply Z.eqb_neq in H
           end;
    repeat split; intros;
    repeat match goal with
           | H : exists _, _ |- _ => destruct H as (? & ? & ?)
           end;
    try reflexivity; try discriminate; try congruence.
Qed.

Lemma update_at_most_three_witness :
  fst (update w_update_refused) = Ret false /\
  sent (trace (snd (update w_update_refused))) =
    [[0x03; 0xfc]; [0x01; 0xfe]; [0x01; 0xfe]; [0x01; 0xfe]] /\
  read_q (snd (update w_update_refused)) = [RBytes ack].
Proof.
  set (w0 := snd (open_port w_update_refused)).
  set (w1 := snd (_get_sector_size (Some 0%nat) (set_fw_pos w0 0))).
  destruct (update_at_most_three w_update_refused w0 w1 0 1) as (H & _);
    [reflexivity | reflexivity | reflexivity |].
  rewrite H.
  - repeat split.
  - exists (Some 2). split; [reflexivity | discriminate].
  - exists (Some 2). split; [reflexivity | discriminate].
  - exists (Some 2). split; [reflexivity | discriminate].
Defined.

(** ** The script around the operations *)

(** X18.  With --handshake alone or --version alone the script exits with
    status 1 when the operation returned True and 0 when it returned False;
    with --appstart alone it exits with 1 for True and 0 for False or None;
    with no operation flag it exits with 0 and touches nothing. *)
Theorem script_exit_status (f ka ua : bool) (w : world) :
  (forall b, fst (handshake w) = Ret b ->
     exists c, fst (script (mkArgs false true false false false f) ka ua w) = Ret c /\
               sys_exit c = if b then 1 else 0) /\
  (forall b, fst (get_version w) = Ret b ->
     exists c, fst (script (mkArgs false false true false false f) ka ua w) = Ret c /\
               sys_exit c = if b then 1 else 0) /\
  (forall r, fst (app_start w) = Ret r ->
     exists c, fst (script (mkArgs false false false false true f) ka ua w) = Ret c /\
               sys_exit c = match r with Some true => 1 | _ => 0 end) /\
  script (mkArgs false false false false false f) ka ua w = (Ret ExitZero, w).
Proof.
  unfold script; cbn [arg_request_bootloader arg_handshake arg_version arg_update arg_appstart].
  unfold bind, ret. repeat split.
  - intros b H. destruct (handshake w) as [[b' | e] w']; cbn [fst] in *; [| discriminate].
    injection H as ->. eexists. split; [reflexivity |]. now destruct b.
  - intros b H. destruct (get_version w) as [[b' | e] w']; cbn [fst] in *; [| discriminate].
    injection H as ->. eexists. split; [reflexivity |]. now destruct b.
  - intros r H. destruct (app_start w) as [[r' | e] w']; cbn [fst] in *; [| discriminate].
    injection H as ->. eexists. split; [reflexivity |]. now destruct r as [[|]|].
Qed.

(** X19.  With --update and a firmware file given, whenever update returns,
    the exit code of the script is the result of the app_start that follows
    it, run on the state the update left: the result of update itself is
    overwritten and decides nothing. *)
Theorem script_update_result_is_dropped (ka ua b : bool) (w w1 : world) :
  update w = (Ret b, w1) ->
  script (mkArgs false false false true false true) ka ua w =
  (match fst (app_start w1) with
   | Ret r => Ret (exit_of_option r)
   | Raise e => Raise e
   end, snd (app_start w1)).
Proof.
  intros H. unfold script, update_args.
  cbn [arg_request_bootloader arg_handshake arg_version arg_update arg_appstart arg_file].
  unfold bind, ret. rewrite H.
  now destruct (app_start w1) as [[r | e] w2].
Qed.

Lemma script_update_result_is_dropped_witness :
  fst (update w_no_sector_size) = Ret false /\
  fst (script (mkArgs false false false true false true) false false w_no_sector_size) =
    Ret (ExitBool true) /\
  sys_exit (ExitBool true) = 1.
Proof.
  assert (H : update w_no_sector_size = (Ret false, snd (update w_no_sector_size)))
    by reflexivity.
  refine (conj eq_refl (conj _ eq_refl)).
  rewrite (script_update_result_is_dropped false false false _ _ H).
  reflexivity.
Defined.

Lemma closed_bind {A C} (m : M A) (k : A -> M C) :
  (forall w, all_closed w -> all_closed (snd (m w))) ->
  (forall a w, all_closed w -> all_closed (snd (k a w))) ->
  forall w, all_closed w -> all_closed (snd (bind m k w)).
Proof.
  intros Hm Hk w Hw. unfold bind. specialize (Hm w Hw).
  destruct (m w) as [[a | e] w1]; cbn [snd] in *; [now apply Hk | exact Hm].
Qed.

(** X20.  Without --request-bootloader, whichever operations are selected,
    the script leaves no Serial object open if none was open at its start. *)
Theorem script_leaves_port_closed (a : arguments) (ka ua : bool) (w : world) :
  arg_request_bootloader a = false ->
  all_closed w -> all_closed (snd (script a ka ua w)).
Proof.
  intros Ha. unfold script. rewrite Ha. revert w.
  assert (Hret : forall (c : exit_code) w, all_closed w -> all_closed (snd (ret c w)))
    by (intros; assumption).
  assert (Happ : forall w, all_closed w ->
            all_closed (snd ((r <- app_start ;; ret (exit_of_option r)) w))).
  { apply closed_bind; [apply app_start_closes | intros; assumption]. }
  apply closed_bind.
  { destruct (arg_handshake a); [| apply Hret].
    apply closed_bind; [apply handshake_closes | intros; assumption]. }
  intros c1. apply closed_bind.
  { destruct (arg_version a); [| apply Hret].
    apply closed_bind; [apply get_version_closes | intros; assumption]. }
  intros c2. apply closed_bind.
  { destruct (arg_update a); [| apply Hret].
    apply closed_bind; [| intros _; exact Happ].
    unfold update_args. destruct (arg_file a); [apply update_closes | intros; assumption]. }
  intros c3. destruct (arg_appstart a); [exact Happ | apply Hret].
Qed.

Lemma script_leaves_port_closed_witness :
  all_closed w_update_ok /\
  all_closed (snd (script (mkArgs false true true true true true) false false w_update_ok)).
Proof.
  assert (H : all_closed w_update_ok) by (intros i; destruct i; reflexivity).
  exact (conj H (script_leaves_port_closed (mkArgs false true true true true true)
                   false false w_update_ok eq_refl H)).
Defined.

(** ** Requesting the bootloader *)

(** X21.  If the Klipper check lets it proceed and opening the port fails
    with an exception of the serial library, request_bootloader does not
    return False: the version query on the missing port raises
    AttributeError, which nothing catches, and nothing is written. *)
Theorem request_bootloader_port_unavailable (ka ua : bool) (w : world) (e : exn) :
  ka && negb ua = false ->
  next_open w = Some e -> is_serial e = true ->
  request_bootloader ka ua w = (Raise AttributeError, pop_open w).
Proof.
  intros Hk Hn He. unfold request_bootloader. rewrite Hk.
  assert (Ho : open_port w = (Ret None, pop_open w)).
  { unfold open_port, try_except, bind, Serial_new. now rewrite Hn, He. }
  unfold bind at 1. rewrite Ho. reflexivity.
Qed.

Lemma request_bootloader_port_unavailable_witness :
  next_open unplugged = Some SerialException /\
  request_bootloader false false unplugged = (Raise AttributeError, pop_open unplugged).
Proof.
  assert (H : next_open unplugged = Some SerialException) by reflexivity.
  exact (conj H (request_bootloader_port_unavailable false false unplugged SerialException
                   eq_refl H eq_refl)).
Defined.

Lemma handshake_run (h : nat) (w : world) (b : bytes) :
  port_open h w -> next_write w = WAll -> next_read w = RBytes b ->
  _handshake (Some h) w =
  (Ret (match firstn 1 b with x :: _ => x =? 0x75 | [] => false end),
   exchanged w [0x75] 1 b).
Proof.
  intros Ho Hw Hr. unfold _handshake, try_except, bind.
  rewrite (ensure_open_open _ _ Ho).
  rewrite (ser_write_all h _ w Ho Hw). cbn [length Nat.eqb].
  rewrite (ser_read_bytes h 1 b); [| exact Ho | exact Hr].
  unfold exchanged. cbn [length].
  destruct (firstn 1 b) as [| x t]; [reflexivity |].
  cbn [length Nat.ltb Nat.leb py_head hd]. now destruct (x =? 117).
Qed.

Lemma get_version_run_world (h : nat) (w : world) (b : bytes) :
  port_open h w -> next_write w = WAll -> next_read w = RBytes b ->
  exists r, _get_version (Some h) w = (Ret r, exchanged w [0x00; 0xff] 26 b) /\
            ((length b < 26)%nat -> r = None).
Proof.
  intros Ho Hw Hr. unfold _get_version, try_except, bind.
  rewrite (ensure_open_open _ _ Ho).
  rewrite (ser_write_all h _ w Ho Hw). cbn [length Nat.eqb].
  rewrite (ser_read_bytes h 26 b); [| exact Ho | exact Hr].
  unfold exchanged. cbn [length].
  destruct (0 <? length (firstn 26 b))%nat.
  - destruct (length (firstn 26 b) =? 26)%nat eqn:E; cbn [andb].
    + destruct (nth 25 (firstn 26 b) 0 =? crc (py_init (firstn 26 b)));
        eexists; (split; [reflexivity |]); intros Hl;
        apply Nat.eqb_eq in E; rewrite length_firstn in E; lia.
    + eexists. split; [reflexivity | reflexivity].
  - eexists. split; [reflexivity | reflexivity].
Qed.

Lemma opens_all_next (w : world) : opens_all w -> next_open w = None.
Proof.
  unfold opens_all, next_open. intros H.
  destruct (open_q w); [reflexivity |]. now inversion H.
Qed.

Lemma opens_all_pop (w : world) : opens_all w -> Forall (fun o => o = None) (tl (open_q w)).
Proof.
  unfold opens_all. intros H.
  destruct (open_q w); simpl; [constructor |]. now inversion H.
Qed.

Lemma Serial_new_run (w : world) :
  next_open w = None ->
  Serial_new w = (Ret (length (handles w)), set_handles (pop_open w) (handles w ++ [true])).
Proof. intros H. unfold Serial_new. now rewrite H. Qed.

(** X22.  If the Klipper check lets it proceed, the port opens each time,
    writes go through, no read raises and the version query is answered by
    fewer than 26 bytes, request_bootloader sends the version query 00 ff,
    the wake sequence and the handshake byte 75, in this order; it returns
    True exactly when the first byte read after the handshake is 0x75, and
    then it also sends a second version query, and False otherwise. *)
Theorem request_bootloader_wakes_device (ka ua : bool) (w : world) (b0 b b3 : bytes)
    (rq : list read_outcome) :
  ka && negb ua = false ->
  opens_all w -> writes_all w ->
  read_q w = RBytes b0 :: RBytes b :: RBytes b3 :: rq ->
  (length b0 < 26)%nat ->
  let ok := match firstn 1 b with x :: _ => x =? 0x75 | [] => false end in
  fst (request_bootloader ka ua w) = Ret ok /\
  sent (trace (snd (request_bootloader ka ua w))) =
    sent (trace w) ++ [[0x00; 0xff]; wake_sequence; [0x75]] ++
    (if ok then [[0x00; 0xff]] else []).
Proof.
  intros Hk Hop Hw Hr Hb0 ok.
  set (h1 := length (handles w)).
  set (w1 := set_handles (pop_open w) (handles w ++ [true])).
  assert (Ho1 : port_open h1 w1) by (unfold port_open, w1, h1; cbn; apply nth_middle).
  destruct (get_version_run_world h1 w1 b0 Ho1) as (r0 & Hv & Hnone).
  { exact (writes_all_next w Hw). } { unfold next_read. cbn. now rewrite Hr. }
  rewrite (Hnone Hb0) in Hv. clear Hnone r0.
  set (w2 := exchanged w1 [0x00; 0xff] 26 b0) in *.
  set (w3 := set_handles w2 (set_flag (handles w2) h1 false)).
  set (h2 := length (handles w3)).
  set (w4 := set_handles (pop_open w3) (handles w3 ++ [true])).
  assert (Ho4 : port_open h2 w4) by (unfold port_open, w4, h2; cbn; apply nth_middle).
  assert (Hop1 : Forall (fun o => o = None) (tl (open_q w))) by (now apply opens_all_pop).
  assert (Hw1 : Forall (fun o => o = WAll) (tl (write_q w))) by (now apply writes_all_pop).
  assert (Hn3 : next_open w3 = None) by (exact (opens_all_next w3 Hop1)).
  set (w5 := log (pop_write w4) (EvWrite wake_sequence (length wake_sequence))).
  assert (Hwr : ser_write (Some h2) wake_sequence w4 = (Ret (length wake_sequence), w5))
    by (apply ser_write_all; [exact Ho4 | exact (writes_all_next w4 Hw1)]).
  set (w6 := set_handles w5 (set_flag (handles w5) h2 false)).
  set (h3 := length (handles w6)).
  set (w7 := set_handles (pop_open w6) (handles w6 ++ [true])).
  assert (Ho7 : port_open h3 w7) by (unfold port_open, w7, h3; cbn; apply nth_middle).
  assert (Hop6 : opens_all w6) by (exact (opens_all_pop w3 Hop1)).
  assert (Hw6 : writes_all w6) by (exact (writes_all_pop w4 Hw1)).
  assert (Hopen7 : open_port w6 = (Ret (Some h3), w7))
    by (apply open_port_fresh, opens_all_next, Hop6).
  assert (Hhs : _handshake (Some h3) w7 = (Ret ok, exchanged w7 [0x75] 1 b)).
  { apply handshake_run; [exact Ho7 | exact (writes_all_next w7 Hw6) |].
    unfold next_read. cbn. now rewrite Hr. }
  set (w8 := exchanged w7 [0x75] 1 b) in *.
  destruct (get_version_run_world h3 w8 b3 Ho7) as (r3 & Hv3 & _).
  { exact (writes_all_next w8 (writes_all_pop w7 Hw6)). }
  { unfold next_read. cbn. now rewrite Hr. }
  set (w9 := exchanged w8 [0x00; 0xff] 26 b3) in *.
  assert (Hs8 : sent (trace w8) = sent (trace w) ++ [[0x00; 0xff]; wake_sequence; [0x75]]).
  { unfold w8, exchanged. rewrite sent_log_read.
    cbn [trace log pop_read pop_write set_read_q set_write_q set_handles pop_open set_open_q
         w7 w6 w5 w4 w3 w2 w1 exchanged].
    rewrite !sent_app, <- !app_assoc. cbn [sent flat_map app].
    now rewrite firstn_all. }
  assert (Eq : request_bootloader ka ua w = (Ret ok, if ok then w9 else w8)).
  { unfold request_bootloader. rewrite Hk. unfold bind at 1.
    rewrite (open_port_fresh w (opens_all_next w Hop)). fold h1 w1.
    unfold bind at 1. rewrite Hv.
    unfold bind at 1. unfold ser_close at 1. fold w3.
    unfold bind at 1. unfold try_except at 1. unfold bind at 1.
    rewrite (Serial_new_run w3 Hn3). fold h2 w4. unfold ret at 1.
    unfold try_except. unfold bind at 1. rewrite Hwr.
    unfold bind at 1. unfold ser_close at 1. fold w6.
    unfold bind at 1. rewrite Hopen7.
    unfold bind at 1. rewrite Hhs.
    destruct ok; [| reflexivity].
    unfold bind. rewrite Hv3. reflexivity. }
  rewrite Eq. cbn [fst snd]. split; [reflexivity |].
  destruct ok.
  - unfold w9, exchanged. rewrite sent_log_read.
    cbn [trace log pop_read pop_write set_read_q set_write_q].
    rewrite sent_app, Hs8, <- app_assoc. reflexivity.
  - now rewrite Hs8, app_nil_r.
Qed.

Lemma request_bootloader_wakes_device_witness :
  fst (request_bootloader false false w_enter_bootloader) = Ret true /\
  sent (trace (snd (request_bootloader false false w_enter_bootloader))) =
    [[0x00; 0xff]; wake_sequence; [0x75]; [0x00; 0xff]].
Proof.
  assert (Hb : (length (@nil Z) < 26)%nat) by (simpl; lia).
  exact (request_bootloader_wakes_device false false w_enter_bootloader [] [0x75] some_version []
           eq_refl (Forall_nil _) (Forall_nil _) eq_refl Hb).
Defined.
